(** * Antigravity Usage: quota fetcher, quota store and insights engine

    A shallow embedding of the core of the extension
    ([core/QuotaFetcher.ts], the quota store, [core/types.ts] and the
    InsightsEngine analytics layer) together with the properties its
    specification states about it.

    Conventions of the embedding.
    - A JavaScript [number] that the code only ever fills with an integer
      (a percentage produced by [Math.round], an epoch-millisecond
      timestamp, a port) is a [Z]. A [number] that can hold a fraction (a
      burn rate, a remaining fraction, a credit amount) is an exact
      rational [Q], compared with [==]: IEEE rounding, NaN and the
      infinities are outside the model, except that the results of
      [Math.max()] and [Math.min()] on an empty argument list are kept as
      [None].
    - An object used as a dictionary ([Record<string, number>], [Map]) is a
      [gmap string _]; an optional or nullable field is an [option].
    - Mutable object state is passed explicitly; a promise that can reject
      and a function that can throw return an [Outcome].
    - I/O is recorded in the order in which it is started. A call of an
      [async] function runs up to its first [await] when it is made and
      goes on when the awaited promise settles; the environment gives
      the order in which the promises of concurrent calls settle.
    - [Date.now()] is read once per public call and passed in as [now]. *)

From Stdlib Require Import ZArith QArith Qround Qminmax Lia Lqa.
From Stdlib Require Import Sorting.Sorted Sorting.Permutation.
From stdpp Require Import base option list sorting gmap strings pretty.

Local Open Scope Z_scope.

(** ** JavaScript built-ins used by the code *)

Module Js.

(** [Math.round(x)]: the nearest integer, ties towards plus infinity. *)
Definition Math_round (x : Q) : Z := Qfloor (x + (1 # 2))%Q.

(** [Math.floor(x)] and [Math.ceil(x)]. *)
Definition Math_floor (x : Q) : Z := Qfloor x.
Definition Math_ceil (x : Q) : Z := Qceiling x.

(** The time value of [new Date(x)]: [x] truncated towards zero. *)
Definition TimeClip (x : Q) : Z :=
  if Qle_bool 0 x then Qfloor x else Qceiling x.

(** [x === y] on numbers. *)
#[global] Instance Qeq_decision (x y : Q) : Decision (x == y)%Q :=
  Qeq_dec x y.

(** [Math.max(...xs)] on rationals; [None] stands for [-Infinity], the
    value on an empty list. *)
Definition Math_max (xs : list Q) : option Q :=
  foldr (fun x acc =>
           match acc with
           | None => Some x
           | Some y => Some (Qmax x y)
           end) None xs.

(** [Math.min(...zs)] on integers; [None] stands for [+Infinity]. *)
Definition Math_min (zs : list Z) : option Z :=
  foldr (fun z acc =>
           match acc with
           | None => Some z
           | Some y => Some (Z.min z y)
           end) None zs.

(** [l.slice(-n)]: the last [n] elements, the whole array when it is
    shorter. *)
Definition slice_last {A} (n : nat) (l : list A) : list A :=
  drop (length l - n)%nat l.

(** Truthiness of a possibly absent string: [undefined], [null] and the
    empty string are falsy. *)
Definition truthy (s : option string) : bool :=
  match s with
  | Some EmptyString | None => false
  | Some _ => true
  end.

(** [a || b] on possibly absent strings. *)
Definition or_else (a b : option string) : option string :=
  if truthy a then a else b.

(** [a || d] where [d] is a string literal. *)
Definition or_default (a : option string) (d : string) : string :=
  match or_else a (Some d) with Some s => s | None => d end.

(** [x || 0] on a possibly absent number. *)
Definition num_or_zero (x : option Q) : Q := default 0%Q x.

(** [s.toLowerCase()], on the ASCII letters. *)
Definition lower_ascii (c : Ascii.ascii) : Ascii.ascii :=
  let n := Ascii.nat_of_ascii c in
  if ((65 <=? n) && (n <=? 90))%nat then Ascii.ascii_of_nat (n + 32) else c.

Fixpoint toLowerCase (s : string) : string :=
  match s with
  | EmptyString => EmptyString
  | String c r => String (lower_ascii c) (toLowerCase r)
  end.

(** [s.includes(p)]: [p] occurs in [s] as a contiguous substring. *)
Fixpoint includes (s p : string) : bool :=
  String.prefix p s ||
  match s with
  | EmptyString => false
  | String _ r => includes r p
  end.

(** A number interpolated into a template string. *)
Definition show (z : Z) : string := pretty z.

(** [arr.sort(cmp)]. ECMAScript requires the sort to be stable and, for a
    consistent comparator, the result to be ordered by it; the engine's
    algorithm is otherwise free. A stable insertion sort stands for it:
    [x] goes before the first [y] with [cmp(x, y) <= 0]. *)
Fixpoint insert_by {A} (cmp : A -> A -> Z) (x : A) (l : list A) : list A :=
  match l with
  | [] => [x]
  | y :: r => if cmp x y <=? 0 then x :: y :: r else y :: insert_by cmp x r
  end.

Definition Array_sort {A} (cmp : A -> A -> Z) (l : list A) : list A :=
  foldr (insert_by cmp) [] l.

End Js.

(** ** core/types.ts *)

Module Types.

Record ModelQuota := {
  modelId : string;
  label : string;
  remainingPercent : Z;
  isExhausted : bool;
  resetTime : option string;
  timeUntilReset : option string;
}.

Record ModelInsights := {
  burnRate : Q;
  burnRateLabel : string;
  predictedExhaustion : option Z;
  predictedExhaustionLabel : option string;
  sessionUsage : Z;
  isActive : bool;
  isPinned : bool;
  historyData : list Z;
}.

(** [EnrichedModel extends ModelQuota]: built as [{ ...model, insights }]. *)
Record EnrichedModel := {
  quota :> ModelQuota;
  insights : ModelInsights;
}.

Record CreditInfo := {
  available : Q;
  monthly : Q;
}.

Inductive HealthLevel := excellent | good | low | critical.

Record HealthStatus := {
  score : Z;
  level : HealthLevel;
  health_label : string;
}.

Record QuotaState := {
  models : list EnrichedModel;
  promptCredits : option CreditInfo;
  flowCredits : option CreditInfo;
  health : HealthStatus;
  sessionStart : Z;
  lastUpdate : Z;
  isLoading : bool;
  error : option string;
}.

(** The payload of an UPDATE action:
    [Omit<QuotaState, 'isLoading' | 'error' | 'sessionStart'>]. *)
Record UpdatePayload := {
  p_models : list EnrichedModel;
  p_promptCredits : option CreditInfo;
  p_flowCredits : option CreditInfo;
  p_health : HealthStatus;
  p_lastUpdate : Z;
}.

Inductive QuotaAction :=
| LOADING
| UPDATE (payload : UpdatePayload)
| ERROR (payload : string)
| CLEAR_ERROR.

Inductive DisplayStyle := percentage | progressBar | dots.

Record QuotaConfig := {
  warningThreshold : Z;
  refreshInterval : Z;
  pinnedModels : list string;
  displayStyle : DisplayStyle;
}.

End Types.

(** ** InsightsEngine: the analytics layer *)

Module InsightsEngine.
Import Js Types.

Record HistoryEntry := {
  timestamp : Z;
  models : gmap string Z; (* modelId -> remainingPercent *)
}.

Definition STORAGE_KEY : string := "antigravity.quotaHistory_v2".
Definition MAX_HISTORY_HOURS : Z := 24.
Definition MAX_HISTORY_POINTS : nat := 200.

(** The fields of the class. [globalState] is the [vscode.Memento] the
    engine was constructed with, holding history arrays under string
    keys; its [update] is taken to have landed when the call returns. *)
Record Engine := {
  history : list HistoryEntry;
  sessionStartTime : Z;
  sessionStartQuotas : gmap string Z;
  lastActiveModelId : option string;
  globalState : gmap string (list HistoryEntry);
}.

Definition set_history (h : list HistoryEntry) (e : Engine) : Engine :=
  {| history := h;
     sessionStartTime := sessionStartTime e;
     sessionStartQuotas := sessionStartQuotas e;
     lastActiveModelId := lastActiveModelId e;
     globalState := globalState e |}.

Definition set_sessionStartQuotas (q : gmap string Z) (e : Engine) : Engine :=
  {| history := history e;
     sessionStartTime := sessionStartTime e;
     sessionStartQuotas := q;
     lastActiveModelId := lastActiveModelId e;
     globalState := globalState e |}.

Definition set_lastActiveModelId (a : option string) (e : Engine) : Engine :=
  {| history := history e;
     sessionStartTime := sessionStartTime e;
     sessionStartQuotas := sessionStartQuotas e;
     lastActiveModelId := a;
     globalState := globalState e |}.

Definition set_globalState (g : gmap string (list HistoryEntry)) (e : Engine)
  : Engine :=
  {| history := history e;
     sessionStartTime := sessionStartTime e;
     sessionStartQuotas := sessionStartQuotas e;
     lastActiveModelId := lastActiveModelId e;
     globalState := g |}.

(** *** History management *)

(** [Date.now() - MAX_HISTORY_HOURS * 60 * 60 * 1000] *)
Definition cutoff (now : Z) : Z := now - MAX_HISTORY_HOURS * 60 * 60 * 1000.

(** [e => e.timestamp > cutoff] *)
Definition newer_than (c : Z) (e : HistoryEntry) : Prop := c < timestamp e.

#[global] Instance newer_than_dec c e : Decision (newer_than c e).
Proof. unfold newer_than. apply _. Defined.

Definition loadHistory (now : Z) (e : Engine) : Engine :=
  let stored := default [] (globalState e !! STORAGE_KEY) in
  set_history (filter (newer_than (cutoff now)) stored) e.

(** [new InsightsEngine(globalState)] *)
Definition new (g : gmap string (list HistoryEntry)) (now : Z) : Engine :=
  loadHistory now
    {| history := [];
       sessionStartTime := now;
       sessionStartQuotas := ∅;
       lastActiveModelId := None;
       globalState := g |}.

Definition saveHistory (now : Z) (e : Engine) : Engine :=
  let toStore :=
    slice_last MAX_HISTORY_POINTS
      (filter (newer_than (cutoff now)) (history e)) in
  set_globalState (<[STORAGE_KEY := toStore]> (globalState e)) e.

Definition clearHistory (e : Engine) : Engine :=
  set_globalState (<[STORAGE_KEY := []]> (globalState e)) (set_history [] e).

(** The snapshot entry built by the loop of [recordHistory]. *)
Definition snapshot (now : Z) (ms : list ModelQuota) : HistoryEntry :=
  {| timestamp := now;
     models :=
       foldl (fun acc m => <[modelId m := remainingPercent m]> acc) ∅ ms |}.

Definition recordHistory (now : Z) (ms : list ModelQuota) (e : Engine)
  : Engine :=
  saveHistory now (set_history (history e ++ [snapshot now ms]) e).

Definition initSessionTracking (ms : list ModelQuota) (e : Engine) : Engine :=
  set_sessionStartQuotas
    (foldl (fun q m =>
              match q !! modelId m with
              | Some _ => q
              | None => <[modelId m := remainingPercent m]> q
              end) (sessionStartQuotas e) ms) e.

(** *** Model analysis *)

(** [(newest.timestamp - oldest.timestamp) / (1000 * 60 * 60)] *)
Definition deltaHours (oldest newest : HistoryEntry) : Q :=
  (inject_Z (timestamp newest - timestamp oldest)
   / inject_Z (1000 * 60 * 60))%Q.

Definition calculateBurnRate (h : list HistoryEntry) (id : string) : Q :=
  if (length h <? 2)%nat then 0%Q
  else
    match head h, last h with
    | Some oldest, Some newest =>
        match models oldest !! id, models newest !! id with
        | Some oldValue, Some newValue =>
            let deltaPercent := oldValue - newValue in
            if Qle_bool (deltaHours oldest newest) 0 then 0%Q
            else Qmax 0 (inject_Z deltaPercent / deltaHours oldest newest)
        | _, _ => 0%Q
        end
    | _, _ => 0%Q
    end.

Definition calculateSessionUsage (e : Engine) (id : string) (currentPercent : Z)
  : Z :=
  match sessionStartQuotas e !! id with
  | None => 0
  | Some startPercent => Z.max 0 (startPercent - currentPercent)
  end.

(** The first block of [detectActiveModel] ("Check if this model has
    highest burn rate"): the history has two entries, the largest burn
    rate exceeds 0.5 and [model] is the first of [allModels] to reach
    it. *)
Definition highestBurner (h : list HistoryEntry) (model : ModelQuota)
    (allModels : list ModelQuota) : bool :=
  if (2 <=? length h)%nat then
    let burnRates :=
      map (fun m => (modelId m, calculateBurnRate h (modelId m))) allModels in
    match Math_max (map snd burnRates) with
    | Some maxBurnRate =>
        if negb (Qle_bool maxBurnRate (1 # 2)) then
          match list_find (fun b => snd b == maxBurnRate)%Q burnRates with
          | Some (_, b) => String.eqb (fst b) (modelId model)
          | None => false
          end
        else false
    | None => false
    end
  else false.

(** Its last block ("Fallback: lowest remaining"): [model] has the lowest
    remaining percentage and that percentage is below 90. *)
Definition lowestRemaining (model : ModelQuota) (allModels : list ModelQuota)
  : bool :=
  match Math_min (map remainingPercent allModels) with
  | Some lowest => (remainingPercent model =? lowest) && (lowest <? 90)
  | None => false
  end.

(** The three blocks in order, each returning [true] when it applies; the
    one in the middle is [this.lastActiveModelId === model.modelId]. *)
Definition detectActiveModel (e : Engine) (model : ModelQuota)
    (allModels : list ModelQuota) : bool :=
  if highestBurner (history e) model allModels then true
  else if bool_decide (lastActiveModelId e = Some (modelId model)) then true
  else if lowestRemaining model allModels then true
  else false.

Definition getHistoryData (e : Engine) (id : string) : list Z :=
  map (fun entry => default 100 (models entry !! id))
      (slice_last 20 (history e)).

Definition checkPinned (lbl : string) (pinned : list string) : bool :=
  match pinned with
  | [] => false
  | _ => existsb (fun pin => includes (toLowerCase lbl) (toLowerCase pin)) pinned
  end.

Definition getBurnRateLabel (r : Q) : string :=
  if Qle_bool r (1 # 2) then "Minimal"
  else if Qle_bool r 2 then "Slow"
  else if Qle_bool r 5 then "Moderate"
  else if Qle_bool r 15 then "Fast"
  else "Very Fast".

Definition formatPrediction (hours : Q) : string :=
  if negb (Qle_bool hours 24) then
    let days := Math_floor (hours / 24) in
    if days =? 1 then "~1 day" else "~" +:+ show days +:+ " days"
  else if negb (Qle_bool hours 1) then
    let h := Math_floor hours in
    let m := Math_round ((hours - inject_Z h) * 60) in
    if 0 <? m then "~" +:+ show h +:+ "h " +:+ show m +:+ "m"
    else "~" +:+ show h +:+ "h"
  else
    let mins := Math_round (hours * 60) in
    if 0 <? mins then "~" +:+ show mins +:+ "m" else "<1m".

(** [analyzeModel] reads and writes [lastActiveModelId]; the engine after
    the call is returned next to the enriched model. *)
Definition analyzeModel (now : Z) (e : Engine) (model : ModelQuota)
    (allModels : list ModelQuota) (pinned : list string)
  : EnrichedModel * Engine :=
  let rate := calculateBurnRate (history e) (modelId model) in
  let usage := calculateSessionUsage e (modelId model) (remainingPercent model) in
  let active := detectActiveModel e model allModels in
  let pinnedFlag := checkPinned (label model) pinned in
  let data := getHistoryData e (modelId model) in
  let prediction : option Z * option string :=
    if negb (Qle_bool rate 0) && (0 <? remainingPercent model) then
      let hoursUntilEmpty := (inject_Z (remainingPercent model) / rate)%Q in
      (Some (TimeClip (inject_Z now + hoursUntilEmpty * 60 * 60 * 1000)),
       Some (formatPrediction hoursUntilEmpty))
    else if isExhausted model then (None, Some "Exhausted")
    else (None, Some "Safe for now") in
  let e' := if active then set_lastActiveModelId (Some (modelId model)) e
            else e in
  ({| quota := model;
      insights :=
        {| burnRate := rate;
           burnRateLabel := getBurnRateLabel rate;
           predictedExhaustion := prediction.1;
           predictedExhaustionLabel := prediction.2;
           sessionUsage := usage;
           isActive := active;
           isPinned := pinnedFlag;
           historyData := data |} |},
   e').

(** [models.map(model => this.analyzeModel(model, models, pinned))]: the
    callback runs on the elements from left to right, on the engine the
    previous element left. *)
Fixpoint analyzeEach (now : Z) (e : Engine) (todo allModels : list ModelQuota)
    (pinned : list string) : list EnrichedModel * Engine :=
  match todo with
  | [] => ([], e)
  | m :: rest =>
      let '(em, e1) := analyzeModel now e m allModels pinned in
      let '(ems, e2) := analyzeEach now e1 rest allModels pinned in
      (em :: ems, e2)
  end.

(** The comparator handed to [enriched.sort]. *)
Definition byPriority (a b : EnrichedModel) : Z :=
  if isPinned (insights a) && negb (isPinned (insights b)) then -1
  else if negb (isPinned (insights a)) && isPinned (insights b) then 1
  else if isActive (insights a) && negb (isActive (insights b)) then -1
  else if negb (isActive (insights a)) && isActive (insights b) then 1
  else remainingPercent a - remainingPercent b.

(** *** Health *)

Definition getHealthLevel (sc : Z) : HealthLevel * string :=
  if 75 <=? sc then (excellent, "Excellent")
  else if 50 <=? sc then (good, "Good")
  else if 25 <=? sc then (low, "Low")
  else (critical, "Critical").

Definition calculateHealth (ms : list EnrichedModel) : HealthStatus :=
  match ms with
  | [] => {| score := 100; level := excellent; health_label := "Unknown" |}
  | _ =>
      let '(totalWeight, weightedSum) :=
        foldl (fun '(tw, ws) m =>
                 let weight := if isActive (insights m) then 3 else 1 in
                 (tw + weight, ws + remainingPercent m * weight))
              (0, 0) ms in
      let sc := Math_round (inject_Z weightedSum / inject_Z totalWeight) in
      let '(lv, lb) := getHealthLevel sc in
      {| score := sc; level := lv; health_label := lb |}
  end.

(** *** Public API *)

Definition analyze (now : Z) (e : Engine) (ms : list ModelQuota)
    (config : QuotaConfig)
  : (list EnrichedModel * HealthStatus) * Engine :=
  let e1 := recordHistory now ms e in
  let e2 := initSessionTracking ms e1 in
  let '(enriched, e3) := analyzeEach now e2 ms ms (pinnedModels config) in
  let sorted := Array_sort byPriority enriched in
  ((sorted, calculateHealth sorted), e3).

Definition getSessionStart (e : Engine) : Z := sessionStartTime e.

End InsightsEngine.

(** ** QuotaFetcher: the network layer *)

Module QuotaFetcher.
Import Js Types.

(** A settled promise or a finished call: a value, or an [Error] thrown. *)
Inductive Outcome (A : Type) : Type :=
| Returned (a : A)
| Thrown (message : string).
Arguments Returned {A} a.
Arguments Thrown {A} message.

Record ProcessInfo := {
  pid : Z;
  extensionPort : Z;
  csrfToken : string;
}.

(** [ConnectionParams]; its [csrfToken] field is [connToken] here. *)
Record ConnectionParams := {
  port : Z;
  connToken : string;
}.

Record UserInfo := {
  name : string;
  email : string;
  planName : string;
  tier : string;
}.

Record RawQuotaResponse := {
  timestamp : Z;
  models : list ModelQuota;
  promptCredits : option CreditInfo;
  flowCredits : option CreditInfo;
  userInfo : option UserInfo;
}.

(** *** The JSON of the status endpoint

    The fields [parseResponse] reads. The server is taken to send numbers
    where numbers are read and strings where strings are read, each
    possibly absent or [null]. Where an object is read, [None] stands for
    a value that is absent, [null] or a falsy primitive, and [Some] for an
    object; an array or a truthy primitive in such a place has none of
    the fields read and is an object with every field absent. *)

Record RawQuotaInfo := {
  remainingFraction : option Q;
  rawResetTime : option string;
}.

Record RawModelOrAlias := {
  model : option string;
  alias : option string;
}.

Record RawModelConfig := {
  rawLabel : option string;
  modelOrAlias : option RawModelOrAlias;
  quotaInfo : option RawQuotaInfo;
}.

Record RawPlanInfo := {
  rawPlanName : option string;
  teamsTier : option string;
  monthlyPromptCredits : option Q;
  monthlyFlowCredits : option Q;
}.

Record RawPlanStatus := {
  planInfo : option RawPlanInfo;
  availablePromptCredits : option Q;
  availableFlowCredits : option Q;
}.

(** [clientModelConfigs] when it is truthy: what [for ... of] makes of it.
    An array gives its elements: [None] is a [null] element, and an
    element that is neither [null] nor an object is an entry with every
    field absent. A string gives its characters, which are such entries
    too. A number, [true] or an object cannot be iterated. *)
Inductive RawModelConfigs :=
| Iterable (entries : list (option RawModelConfig))
| NotIterable.

Record RawCascadeData := {
  clientModelConfigs : option RawModelConfigs;
}.

Record RawUserTier := {
  tierName : option string;
}.

Record RawUserStatus := {
  rawName : option string;
  rawEmail : option string;
  planStatus : option RawPlanStatus;
  cascadeModelConfigData : option RawCascadeData;
  userTier : option RawUserTier;
}.

(** An object, an array or a truthy primitive that has none of the
    fields. *)
Definition noFields : RawUserStatus :=
  {| rawName := None; rawEmail := None; planStatus := None;
     cascadeModelConfigData := None; userTier := None |}.

(** The parsed body when it is not [null]. [Falsy] is a body that is [0],
    [false] or the empty string: it has no fields and is falsy itself.
    Any other body is read as an object with an optional [userStatus]
    envelope, and [fields] holds what is read off the object itself when
    the envelope is missing or falsy ([data.userStatus || data]). *)
Inductive StatusData :=
| Falsy
| Object (envelope : option RawUserStatus) (fields : RawUserStatus).

(** [data.userStatus] *)
Definition userStatus (data : StatusData) : option RawUserStatus :=
  match data with
  | Falsy => None
  | Object envelope _ => envelope
  end.

(** [data], read as a user status. *)
Definition unwrapped (data : StatusData) : RawUserStatus :=
  match data with
  | Falsy => noFields
  | Object _ fields => fields
  end.

(** What an HTTPS request comes to. *)
Inductive HttpReply :=
| RequestError (message : string)
| RequestTimeout
| Response (statusCode : Z) (body : string).

(** *** The environment of a call

    What the operating system, the network and the runtime answer.
    Discovery makes several attempts, two seconds apart, and the answers
    may differ from one attempt to the next. *)
Record Env := {
  (** the platform's process listing, parsed: a process, [null], or an
      error from the command *)
  platformProcessInfo : nat -> Outcome (option ProcessInfo);
  (** does a TCP connect to the port succeed within SOCKET_TIMEOUT *)
  isPortOpen : nat -> Z -> bool;
  (** the moment at which the TCP probe of the port settles: connected,
      refused or timed out *)
  tcpSettledAt : nat -> Z -> Z;
  (** does GetUnleashData on the port answer HTTP 200 within 2 s *)
  testApiEndpoint : nat -> Z -> string -> bool;
  (** the answer of GetUserStatus on a connection *)
  userStatusReply : ConnectionParams -> HttpReply;
  (** [JSON.parse]: [None] on a syntax error, [Some None] for [null] *)
  JSON_parse : string -> option (option StatusData);
  (** [new Date(s).getTime()], [None] for an invalid date *)
  Date_getTime : string -> option Z;
}.

(** I/O issued by the fetcher, in the order the calls are started. *)
Inductive Event :=
| TcpProbe (p : Z)
| Handshake (p : Z)
| Delay (ms : Z)
| StatusRequest (p : Z).

#[global] Instance Event_eq_dec : EqDecision Event.
Proof. solve_decision. Defined.

(** The object: its [connection] field, and the I/O it has issued. *)
Record Fetcher := {
  connection : option ConnectionParams;
  trace : list Event;
}.

Definition PORT_START : Z := 8090.
Definition PORT_END : Z := 8150.
Definition SOCKET_TIMEOUT : Z := 500.

(** [new QuotaFetcher()] *)
Definition new : Fetcher := {| connection := None; trace := [] |}.

(** *** Methods as state transformers that may throw *)

Definition M (A : Type) : Type := Fetcher -> Outcome A * Fetcher.

#[global] Instance M_ret : MRet M := fun A a s => (Returned a, s).

#[global] Instance M_bind : MBind M := fun A B k m s =>
  match m s with
  | (Returned a, s') => k a s'
  | (Thrown msg, s') => (Thrown msg, s')
  end.

Definition throw {A} (msg : string) : M A := fun s => (Thrown msg, s).

(** [try { body } catch (error) { handler(error.message) }] *)
Definition try_catch {A} (body : M A) (handler : string -> M A) : M A :=
  fun s =>
    match body s with
    | (Returned a, s') => (Returned a, s')
    | (Thrown msg, s') => handler msg s'
    end.

Definition lift {A} (o : Outcome A) : M A := fun s => (o, s).

Definition get_connection : M (option ConnectionParams) :=
  fun s => (Returned (connection s), s).

Definition set_connection (c : option ConnectionParams) : M unit :=
  fun s => (Returned tt, {| connection := c; trace := trace s |}).

Definition emit (ev : Event) : M unit :=
  fun s => (Returned tt, {| connection := connection s; trace := trace s ++ [ev] |}).

(** A call of an [async] function that awaits a promise before it does
    anything else: [start] is what the call runs at once, up to the
    [await], and [resume] what it runs when the awaited promise has
    settled. *)
Record Async (B : Type) := {
  start : M unit;
  resume : M B;
}.
Arguments start {B} _.
Arguments resume {B} _.

(** [for (x of l) calls.push(f(x))]: every call runs up to its [await],
    in the order of [l]. *)
Fixpoint startAll {A B} (f : A -> Async B) (l : list A) : M unit :=
  match l with
  | [] => mret tt
  | x :: r => start (f x);; startAll f r
  end.

(** The calls go on one after the other, in the order [settled] in which
    the promises they await settle; the result of the call for [x] is
    kept under [x]. *)
Fixpoint resumeAll {A B} `{Countable A} (f : A -> Async B) (settled : list A)
    (results : gmap A B) : M (gmap A B) :=
  match settled with
  | [] => mret results
  | x :: r => y ← resume (f x); resumeAll f r (<[x := y]> results)
  end.

(** [await Promise.all(calls)] for the calls [f x] of the loop above: the
    results come back in the order of [l], whatever the order in which
    the calls went on. *)
Definition all {A B} `{Countable A} (f : A -> Async B) (l settled : list A)
  : M (list B) :=
  startAll f l;;
  results ← resumeAll f settled ∅;
  mret (omap (fun x => results !! x) l).

Definition isConnected (s : Fetcher) : bool :=
  match connection s with Some _ => true | None => false end.

Definition reset : M unit := set_connection None.

Definition delay (ms : Z) : M unit := emit (Delay ms).

(** *** Process detection *)

Definition getProcessInfo (env : Env) (attempt : nat) : M (option ProcessInfo) :=
  try_catch (lift (platformProcessInfo env attempt)) (fun _ => mret None).

(** *** Port scanning *)

(** [checkPort(port, csrfToken)]: the call runs [isPortOpen(port)] at
    once, which opens the socket, and awaits it; the handshake is sent
    when the probe has settled and has found the port open, and the call
    returns with its answer, without further I/O. *)
Definition checkPort (env : Env) (attempt : nat) (p : Z) (token : string)
  : Async (Z * bool) :=
  {| start := emit (TcpProbe p);
     resume :=
       if isPortOpen env attempt p then
         emit (Handshake p);;
         mret (p, testApiEndpoint env attempt p token)
       else mret (p, false) |}.

(** The ports PORT_START, PORT_START + 1, ..., PORT_END. *)
Definition scanWindow : list Z :=
  seqZ PORT_START (PORT_END - PORT_START + 1).

(** The ports in the order in which their TCP probes settle, a stable
    sort by [tcpSettledAt]: probes that settle at the same moment are
    taken in the order they were started. *)
Definition settleOrder (env : Env) (attempt : nat) (ports : list Z) : list Z :=
  Array_sort (fun p q => tcpSettledAt env attempt p - tcpSettledAt env attempt q)
             ports.

Definition findApiPort (env : Env) (attempt : nat) (token : string)
  : M (option Z) :=
  results ← all (fun p => checkPort env attempt p token) scanWindow
                (settleOrder env attempt scanWindow);
  mret ((fun found => fst (snd found)) <$>
          list_find (fun r => snd r = true) results).

(** *** Connection *)

(** How one turn of the retry loop ends. *)
Inductive Turn := Continue | Return (b : bool).

Definition backoff (attempt maxRetries : nat) : M unit :=
  if (attempt <? maxRetries)%nat then delay 2000 else mret tt.

Definition connectAttempt (env : Env) (attempt maxRetries : nat) : M Turn :=
  try_catch
    (processInfo ← getProcessInfo env attempt;
     match processInfo with
     | Some info =>
         if String.eqb (csrfToken info) "" then
           backoff attempt maxRetries;; mret Continue
         else
           found ← findApiPort env attempt (csrfToken info);
           match found with
           | Some p =>
               if p =? 0 then backoff attempt maxRetries;; mret Continue
               else
                 set_connection
                   (Some {| port := p; connToken := csrfToken info |});;
                 mret (Return true)
           | None => backoff attempt maxRetries;; mret Continue
           end
     | None => backoff attempt maxRetries;; mret Continue
     end)
    (fun _ => backoff attempt maxRetries;; mret Continue).

(** [for (let attempt = ...; attempt <= maxRetries; attempt++)], with
    [remaining] turns still to run. *)
Fixpoint connectLoop (env : Env) (remaining attempt maxRetries : nat) : M bool :=
  match remaining with
  | O => mret false
  | S k =>
      turn ← connectAttempt env attempt maxRetries;
      match turn with
      | Return b => mret b
      | Continue => connectLoop env k (S attempt) maxRetries
      end
  end.

Definition connect (env : Env) (maxRetries : nat) : M bool :=
  connectLoop env maxRetries 1%nat maxRetries.

(** *** API communication *)

Definition makeApiRequest (env : Env) : M (option StatusData) :=
  c ← get_connection;
  match c with
  | None => throw "Not connected"
  | Some conn =>
      emit (StatusRequest (port conn));;
      match userStatusReply env conn with
      | RequestError msg => throw msg
      | RequestTimeout => throw "Request timeout"
      | Response code body =>
          if negb (code =? 200) then
            throw ("HTTP " +:+ show code +:+ ": " +:+ String.substring 0 100 body)
          else
            match JSON_parse env body with
            | Some data => mret data
            | None =>
                throw ("JSON parse error: " +:+ String.substring 0 100 body)
            end
      end
  end.

Definition parseCredits (planStatus : option RawPlanStatus)
    (availableOf : RawPlanStatus -> option Q)
    (monthlyOf : RawPlanInfo -> option Q) : option CreditInfo :=
  match planStatus with
  | None => None
  | Some ps =>
      let avail := num_or_zero (availableOf ps) in
      let month := num_or_zero (planInfo ps ≫= monthlyOf) in
      if Qle_bool month 0 then None
      else Some {| available := avail; monthly := month |}
  end.

Definition formatTime (ms : option Z) : string :=
  match ms with
  | None => "NaNh NaNm"
  | Some ms =>
      if ms <=? 0 then "Ready"
      else
        let mins := Math_ceil (inject_Z ms / 60000) in
        if mins <? 60 then show mins +:+ "m"
        else
          let hours := Math_floor (inject_Z mins / 60) in
          show hours +:+ "h " +:+ show (mins mod 60) +:+ "m"
  end.

(** The body of the loop over [rawModels] for an entry that carries
    [quotaInfo]. *)
Definition parseModel (env : Env) (now : Z) (m : RawModelConfig)
    (qi : RawQuotaInfo) : ModelQuota :=
  let fraction := default 1%Q (remainingFraction qi) in
  let percent := Math_round (fraction * 100) in
  let reset :=
    if truthy (rawResetTime qi) then rawResetTime qi else None in
  {| modelId :=
       or_default
         (or_else (modelOrAlias m ≫= model) (modelOrAlias m ≫= alias))
         "unknown";
     label := or_default (rawLabel m) "Unknown Model";
     remainingPercent := percent;
     isExhausted := Qeq_bool fraction 0;
     resetTime := reset;
     timeUntilReset :=
       (fun r => formatTime ((fun t => t - now) <$> Date_getTime env r))
         <$> reset |}.

Fixpoint parseModels (env : Env) (now : Z) (raw : list (option RawModelConfig))
  : Outcome (list ModelQuota) :=
  match raw with
  | [] => Returned []
  | None :: _ => Thrown "Cannot read properties of null (reading 'quotaInfo')"
  | Some m :: rest =>
      match quotaInfo m with
      | None => parseModels env now rest
      | Some qi =>
          match parseModels env now rest with
          | Returned qs => Returned (parseModel env now m qi :: qs)
          | Thrown msg => Thrown msg
          end
      end
  end.

(** [for (const model of rawModels)] *)
Definition parseRawModels (env : Env) (now : Z)
    (rawModels : option RawModelConfigs) : Outcome (list ModelQuota) :=
  match rawModels with
  | None => Returned []
  | Some (Iterable entries) => parseModels env now entries
  | Some NotIterable => Thrown "rawModels is not iterable"
  end.

Definition parseResponse (env : Env) (now : Z) (data : option StatusData)
  : Outcome RawQuotaResponse :=
  match data with
  | None => Thrown "Cannot read properties of null (reading 'userStatus')"
  | Some d =>
      let us := default (unwrapped d) (userStatus d) in
      let ps := planStatus us in
      let cascadeData := cascadeModelConfigData us in
      let prompt := parseCredits ps availablePromptCredits monthlyPromptCredits in
      let flow := parseCredits ps availableFlowCredits monthlyFlowCredits in
      let info :=
        {| name := or_default (rawName us) "Unknown User";
           email := or_default (rawEmail us) "";
           planName := or_default ((ps ≫= planInfo) ≫= rawPlanName) "Free";
           tier :=
             or_default
               (or_else (userTier us ≫= tierName)
                        ((ps ≫= planInfo) ≫= teamsTier))
               "Free" |} in
      (* [userStatus ? {...} : undefined]: [data.userStatus || data] is
         falsy when the body is *)
      let userInfo :=
        match d with
        | Falsy => None
        | Object _ _ => Some info
        end in
      let rawModels := cascadeData ≫= clientModelConfigs in
      match parseRawModels env now rawModels with
      | Returned ms =>
          Returned {| timestamp := now;
                      models := ms;
                      promptCredits := prompt;
                      flowCredits := flow;
                      userInfo := userInfo |}
      | Thrown msg => Thrown msg
      end
  end.

(** *** fetch *)

Definition fetch (env : Env) (now : Z) : M (option RawQuotaResponse) :=
  c ← get_connection;
  connected ← match c with
               | None => connect env 3
               | Some _ => mret true
               end;
  if negb connected then mret None
  else
    try_catch
      (response ← makeApiRequest env;
       parsed ← lift (parseResponse env now response);
       mret (Some parsed))
      (fun _ => set_connection None;; mret None).

End QuotaFetcher.

(** ** QuotaStore: the single source of truth *)

Module QuotaStore.
Import Types.

(** [createDefaultState()], with [new Date()] read as [now]. *)
Definition createDefaultState (now : Z) : QuotaState :=
  {| models := [];
     promptCredits := None;
     flowCredits := None;
     health := {| score := 100; level := excellent; health_label := "Unknown" |};
     sessionStart := now;
     lastUpdate := now;
     isLoading := false;
     error := None |}.

Definition reduce (now : Z) (state : QuotaState) (action : QuotaAction)
  : QuotaState :=
  match action with
  | LOADING =>
      {| models := models state;
         promptCredits := promptCredits state;
         flowCredits := flowCredits state;
         health := health state;
         sessionStart := sessionStart state;
         lastUpdate := lastUpdate state;
         isLoading := true;
         error := None |}
  | UPDATE payload =>
      {| models := p_models payload;
         promptCredits := p_promptCredits payload;
         flowCredits := p_flowCredits payload;
         health := p_health payload;
         sessionStart := sessionStart state;
         lastUpdate := now;
         isLoading := false;
         error := None |}
  | ERROR payload =>
      {| models := models state;
         promptCredits := promptCredits state;
         flowCredits := flowCredits state;
         health := health state;
         sessionStart := sessionStart state;
         lastUpdate := lastUpdate state;
         isLoading := false;
         error := Some payload |}
  | CLEAR_ERROR =>
      {| models := models state;
         promptCredits := promptCredits state;
         flowCredits := flowCredits state;
         health := health state;
         sessionStart := sessionStart state;
         lastUpdate := lastUpdate state;
         isLoading := isLoading state;
         error := None |}
  end.

(** The store: its state, and the states handed to the subscribers so
    far (every subscriber receives each of them). *)
Record Store := {
  state : QuotaState;
  notified : list QuotaState;
}.

(** [new QuotaStore()] *)
Definition new (now : Z) : Store :=
  {| state := createDefaultState now; notified := [] |}.

Definition getState (s : Store) : QuotaState := state s.

Definition getPrimaryModel (s : Store) : option EnrichedModel :=
  head (models (state s)).

Definition getSecondaryModels (s : Store) : list EnrichedModel :=
  drop 1 (models (state s)).

Definition hasWarning (s : Store) (threshold : Z) : bool :=
  existsb (fun m : EnrichedModel => remainingPercent m <? threshold)
    (models (state s)).

(** [reduce] builds a new object for each of the four actions, so the
    identity test [this.state !== prevState] holds and the subscribers
    are notified on every dispatch. *)
Definition dispatch (now : Z) (action : QuotaAction) (s : Store) : Store :=
  let next := reduce now (state s) action in
  {| state := next; notified := notified s ++ [next] |}.

Definition reset (now : Z) (s : Store) : Store :=
  let fresh := createDefaultState now in
  {| state := fresh; notified := notified s ++ [fresh] |}.

End QuotaStore.

(** ** utils/formatters.ts *)

Module Formatters.
Import Js.

(** [ms] is a difference of two epoch-millisecond times. *)
Definition formatDuration (ms : Z) : string :=
  if ms <=? 0 then "Ready"
  else
    let totalMins := Math_ceil (inject_Z ms / 60000) in
    if totalMins <? 1 then "<1m"
    else if totalMins <? 60 then show totalMins +:+ "m"
    else
      let hours := Math_floor (inject_Z totalMins / 60) in
      let mins := totalMins mod 60 in
      if mins =? 0 then show hours +:+ "h"
      else show hours +:+ "h " +:+ show mins +:+ "m".

(** [date] is the time value of the [Date] passed in. *)
Definition formatRelativeTime (date now : Z) : string :=
  let diff := date - now in
  if diff <=? 0 then "now" else "in " +:+ formatDuration diff.

Definition formatPercent (value : Q) (suffix : string) : string :=
  show (Math_round value) +:+ suffix.

End Formatters.

(** ** ui/StatusBarView.ts *)

Module StatusBarView.
Import Js Types.

Inductive ThemeColor := errorBackground | warningBackground.

(** A tooltip is a plain string or a [MarkdownString]. *)
Inductive Tooltip :=
| NoTooltip
| Plain (s : string)
| Markdown (value : string).

(** The [vscode.StatusBarItem] the view owns, as far as [update] writes
    it. *)
Record Item := {
  text : string;
  backgroundColor : option ThemeColor;
  tooltip : Tooltip;
  visible : bool;
}.

(** [vscode.window.createStatusBarItem(...)] *)
Definition created : Item :=
  {| text := ""; backgroundColor := None; tooltip := NoTooltip;
     visible := false |}.

Definition newline : string := String (Ascii.ascii_of_nat 10) "".

(** The last line of the tooltip, as the source file spells it. *)
Definition links : string :=
  "[Open Sidebar](command:antigravity.openSidebar) â€¢ [Dashboard](command:antigravity.openDashboard)".

Definition update (state : QuotaState) (item : Item) : Item :=
  (* [!state.lastUpdate]: a [Date] object is never falsy *)
  let noUpdateYet := false in
  if isLoading state && noUpdateYet then
    {| text := "$(sync~spin) Connecting...";
       backgroundColor := backgroundColor item;
       tooltip := tooltip item;
       visible := true |}
  else if truthy (error state) then
    {| text := "$(error) Offline";
       backgroundColor := Some errorBackground;
       tooltip := Plain ("Connection Error: " +:+ default "" (error state));
       visible := true |}
  else
    match Types.models state with
    | [] =>
        {| text := text item;
           backgroundColor := backgroundColor item;
           tooltip := tooltip item;
           visible := false |}
    | primary :: _ =>
        let percent := remainingPercent primary in
        let icon := if isActive (insights primary) then "$(pulse)"
                    else "$(check)" in
        let md0 :=
          "### " +:+ label primary +:+ newline +:+
          "**" +:+ show percent +:+ "%** remaining" +:+ newline +:+ newline in
        let md1 :=
          if truthy (timeUntilReset primary) then
            md0 +:+ "$(clock) Resets in **"
                +:+ default "" (timeUntilReset primary) +:+ "**" +:+ newline
          else md0 in
        let md2 :=
          if truthy (predictedExhaustionLabel (insights primary)) then
            md1 +:+ "$(crystal-ball) Est. empty: **"
                +:+ default "" (predictedExhaustionLabel (insights primary))
                +:+ "**" +:+ newline
          else md1 in
        {| text := icon +:+ " " +:+ show percent +:+ "%";
           backgroundColor :=
             if percent <? 25 then Some errorBackground
             else if percent <? 50 then Some warningBackground
             else None;
           tooltip :=
             Markdown (md2 +:+ newline +:+ "---" +:+ newline +:+ links);
           visible := true |}
    end.

(** The view subscribes to the store in its constructor: [update] runs on
    every state the store hands out, in order. *)
Definition render (notifications : list QuotaState) (item : Item) : Item :=
  foldl (fun it st => update st it) item notifications.

End StatusBarView.

(** ** extension.ts *)

Module Extension.
Import Js Types.

(** The module-level objects, and the period of the polling timer when
    one is set. *)
Record App := {
  store : QuotaStore.Store;
  fetcher : QuotaFetcher.Fetcher;
  insights : InsightsEngine.Engine;
  pollingInterval : option Z;
}.

(** [poll()]; [getConfig()] is what the workspace configuration holds and
    is passed in as [config]. *)
Definition poll (env : QuotaFetcher.Env) (now : Z) (config : QuotaConfig)
    (a : App) : App :=
  let loading := QuotaStore.dispatch now LOADING (store a) in
  match QuotaFetcher.fetch env now (fetcher a) with
  | (QuotaFetcher.Returned (Some rawData), f) =>
      let '((ms, h), eng) :=
        InsightsEngine.analyze now (insights a)
          (QuotaFetcher.models rawData) config in
      {| store :=
           QuotaStore.dispatch now
             (UPDATE {| p_models := ms;
                        p_health := h;
                        p_promptCredits := QuotaFetcher.promptCredits rawData;
                        p_flowCredits := QuotaFetcher.flowCredits rawData;
                        p_lastUpdate := now |})
             loading;
         fetcher := f;
         insights := eng;
         pollingInterval := pollingInterval a |}
  | (QuotaFetcher.Returned None, f) =>
      {| store :=
           QuotaStore.dispatch now (ERROR "Could not connect to Antigravity")
             loading;
         fetcher := f;
         insights := insights a;
         pollingInterval := pollingInterval a |}
  | (QuotaFetcher.Thrown message, f) =>
      {| store :=
           QuotaStore.dispatch now
             (ERROR (or_default (Some message) "Unknown error during update"))
             loading;
         fetcher := f;
         insights := insights a;
         pollingInterval := pollingInterval a |}
  end.

(** [Math.max(30, config.refreshInterval) * 1000] *)
Definition intervalMs (config : QuotaConfig) : Z :=
  Z.max 30 (refreshInterval config) * 1000.

(** [startPolling()]: the timer is replaced, and one poll runs at once. *)
Definition startPolling (env : QuotaFetcher.Env) (now : Z)
    (config : QuotaConfig) (a : App) : App :=
  let polled := poll env now config a in
  {| store := store polled;
     fetcher := fetcher polled;
     insights := insights polled;
     pollingInterval := Some (intervalMs config) |}.

(** [activate(context)], up to the first poll; [g] is
    [context.globalState]. *)
Definition activate (env : QuotaFetcher.Env) (now : Z) (config : QuotaConfig)
    (g : gmap string (list InsightsEngine.HistoryEntry)) : App :=
  startPolling env now config
    {| store := QuotaStore.new now;
       fetcher := QuotaFetcher.new;
       insights := InsightsEngine.new g now;
       pollingInterval := None |}.

Definition deactivate (a : App) : App :=
  {| store := store a;
     fetcher := fetcher a;
     insights := insights a;
     pollingInterval := None |}.

End Extension.

(** ** The specification's vocabulary *)

Module Spec.
Import Js Types.

(** The burn rate of a model against a history. *)
Definition rate (h : list InsightsEngine.HistoryEntry) (m : ModelQuota) : Q :=
  InsightsEngine.calculateBurnRate h (modelId m).

(** "Sorted by pinned descending, then active descending, then
    remainingPercent ascending": [a] may stand before [b]. *)
Definition precedes (a b : EnrichedModel) : Prop :=
  (isPinned (insights a) = true /\ isPinned (insights b) = false) \/
  (isPinned (insights a) = isPinned (insights b) /\
   ((isActive (insights a) = true /\ isActive (insights b) = false) \/
    (isActive (insights a) = isActive (insights b) /\
     remainingPercent a <= remainingPercent b))).

(** Rule 1: the history has two entries, the maximum burn rate over all
    models exceeds 0.5 %/hour, and the model is the first of the list
    that reaches the maximum. *)
Definition highest_burn_rule (h : list InsightsEngine.HistoryEntry)
    (m : ModelQuota) (all : list ModelQuota) : Prop :=
  (2 <= length h)%nat /\
  exists (i : nat) (first : ModelQuota),
    all !! i = Some first /\
    modelId first = modelId m /\
    ((1 # 2) < rate h first)%Q /\
    (forall m', m' ∈ all -> (rate h m' <= rate h first)%Q) /\
    (forall (j : nat) m', all !! j = Some m' -> (j < i)%nat ->
                          ~ (rate h m' == rate h first)%Q).

(** Rule 2: the model is the one last marked active. *)
Definition last_active_rule (lastActive : option string) (m : ModelQuota)
  : Prop :=
  lastActive = Some (modelId m).

(** Rule 3: the model's remaining percentage is the lowest of all models
    and is below 90. *)
Definition lowest_remaining_rule (m : ModelQuota) (all : list ModelQuota)
  : Prop :=
  (exists m', m' ∈ all /\ remainingPercent m' = remainingPercent m) /\
  (forall m', m' ∈ all -> remainingPercent m <= remainingPercent m') /\
  remainingPercent m < 90.

(** The id last marked active once the models [done] have been analysed,
    starting from [start]. *)
Definition last_active_after (start : option string)
    (done : list EnrichedModel) : option string :=
  foldl (fun acc em =>
           if isActive (insights em) then Some (modelId em) else acc)
        start done.

(** What [analyzeModel] computes for one model, as far as the history
    alone decides it. *)
Definition enriched_from (h : list InsightsEngine.HistoryEntry)
    (m : ModelQuota) (em : EnrichedModel) : Prop :=
  quota em = m /\
  burnRate (insights em) = InsightsEngine.calculateBurnRate h (modelId m) /\
  burnRateLabel (insights em) =
    InsightsEngine.getBurnRateLabel
      (InsightsEngine.calculateBurnRate h (modelId m)) /\
  historyData (insights em) =
    map (fun entry => default 100 (InsightsEngine.models entry !! modelId m))
        (slice_last 20 h).

(** The models of an analysis before they are sorted, in input order. *)
Definition enriched (now : Z) (e : InsightsEngine.Engine)
    (ms : list ModelQuota) (config : QuotaConfig) : list EnrichedModel :=
  (InsightsEngine.analyzeEach now
     (InsightsEngine.initSessionTracking ms
        (InsightsEngine.recordHistory now ms e))
     ms ms (pinnedModels config)).1.

(** The number of models marked active in a result. *)
Definition active_count (ems : list EnrichedModel) : nat :=
  length (List.filter (fun em => isActive (insights em)) ems).

(** The model list of a status body, as the body has it. *)
Definition model_configs (d : QuotaFetcher.StatusData)
  : option QuotaFetcher.RawModelConfigs :=
  QuotaFetcher.cascadeModelConfigData
    (default (QuotaFetcher.unwrapped d) (QuotaFetcher.userStatus d))
  ≫= QuotaFetcher.clientModelConfigs.

(** The model entries of a status body, [null] entries included. *)
Definition raw_models (d : QuotaFetcher.StatusData)
  : list (option QuotaFetcher.RawModelConfig) :=
  match model_configs d with
  | Some (QuotaFetcher.Iterable entries) => entries
  | _ => []
  end.

(** The model entries that carry quota info, each with that info. *)
Definition quota_entries (raw : list (option QuotaFetcher.RawModelConfig))
  : list (QuotaFetcher.RawModelConfig * QuotaFetcher.RawQuotaInfo) :=
  omap (fun entry =>
          m ← entry; qi ← QuotaFetcher.quotaInfo m; Some (m, qi)) raw.

(** The port is inside the scan window. *)
Definition in_window (p : Z) : Prop :=
  QuotaFetcher.PORT_START <= p <= QuotaFetcher.PORT_END.

(** The port answers the TCP probe. *)
Definition open_port (env : QuotaFetcher.Env) (attempt : nat) (p : Z) : Prop :=
  QuotaFetcher.isPortOpen env attempt p = true.

#[global] Instance open_port_dec env attempt p :
  Decision (open_port env attempt p).
Proof. unfold open_port. apply _. Defined.

(** The handshakes of a scan, by port: one to every open port of the
    window, in the order in which the TCP probes settled. *)
Definition scan_handshakes (env : QuotaFetcher.Env) (attempt : nat)
    (ports : list Z) : Prop :=
  ports ≡ₚ filter (open_port env attempt) QuotaFetcher.scanWindow /\
  StronglySorted
    (fun p q => QuotaFetcher.tcpSettledAt env attempt p
                <= QuotaFetcher.tcpSettledAt env attempt q)
    ports.

(** The I/O of a scan: a TCP probe to every port of the window, in
    ascending order, and after them the handshakes. *)
Definition scan_io (env : QuotaFetcher.Env) (attempt : nat)
    (events : list QuotaFetcher.Event) : Prop :=
  exists ports,
    scan_handshakes env attempt ports /\
    events = (QuotaFetcher.TcpProbe <$> QuotaFetcher.scanWindow)
             ++ (QuotaFetcher.Handshake <$> ports).

(** The port is open and passes the validation handshake. *)
Definition validates (env : QuotaFetcher.Env) (attempt : nat)
    (token : string) (p : Z) : Prop :=
  QuotaFetcher.isPortOpen env attempt p = true /\
  QuotaFetcher.testApiEndpoint env attempt p token = true.

(** A transport or parse error on a connection: the request fails or
    times out, the answer is not HTTP 200, its body is not JSON, or
    [parseResponse] throws on it. *)
Definition status_failure (env : QuotaFetcher.Env) (now : Z)
    (conn : QuotaFetcher.ConnectionParams) : Prop :=
  match QuotaFetcher.userStatusReply env conn with
  | QuotaFetcher.RequestError _ => True
  | QuotaFetcher.RequestTimeout => True
  | QuotaFetcher.Response code body =>
      code <> 200 \/
      match QuotaFetcher.JSON_parse env body with
      | None => True
      | Some data =>
          exists message,
            QuotaFetcher.parseResponse env now data
            = QuotaFetcher.Thrown message
      end
  end.

(** The number of status requests a fetcher has issued. *)
Definition status_requests (s : QuotaFetcher.Fetcher) : nat :=
  length (List.filter
            (fun ev => match ev with
                       | QuotaFetcher.StatusRequest _ => true
                       | _ => false
                       end) (QuotaFetcher.trace s)).

(** *** Vocabulary of the further properties *)

(** The model is losing quota and has some left: the case in which
    [analyzeModel] predicts a time of exhaustion. *)
Definition burning (em : EnrichedModel) : Prop :=
  (0 < burnRate (insights em))%Q /\ 0 < remainingPercent em.

(** The weight of a model in the health score. *)
Definition weight (em : EnrichedModel) : Z :=
  if isActive (insights em) then 3 else 1.

Definition total_weight (ems : list EnrichedModel) : Z :=
  foldr (fun em acc => weight em + acc) 0 ems.

Definition weighted_sum (ems : list EnrichedModel) : Z :=
  foldr (fun (em : EnrichedModel) acc =>
           remainingPercent em * weight em + acc) 0 ems.

(** [p] occurs in [s]. *)
Definition substring_of (p s : string) : Prop :=
  exists pre post, s = pre +:+ p +:+ post.

(** The token discovery finds on an attempt: the process listing gives a
    process whose token is not empty. *)
Definition token_at (env : QuotaFetcher.Env) (attempt : nat) : option string :=
  match QuotaFetcher.platformProcessInfo env attempt with
  | QuotaFetcher.Returned (Some info) =>
      if String.eqb (QuotaFetcher.csrfToken info) "" then None
      else Some (QuotaFetcher.csrfToken info)
  | _ => None
  end.

(** The attempt finds a token, and [p] is the lowest port of the window
    that validates with it. *)
Definition attempt_finds (env : QuotaFetcher.Env) (attempt : nat)
    (token : string) (p : Z) : Prop :=
  token_at env attempt = Some token /\
  in_window p /\ validates env attempt token p /\
  forall q, in_window q -> q < p -> ~ validates env attempt token q.

(** The attempt finds no token, or no port that validates with it. *)
Definition attempt_fails (env : QuotaFetcher.Env) (attempt : nat) : Prop :=
  match token_at env attempt with
  | None => True
  | Some token => forall q, in_window q -> ~ validates env attempt token q
  end.

(** The I/O [findApiPort] issues on an attempt. *)
Definition scan_events (env : QuotaFetcher.Env) (attempt : nat)
  : list QuotaFetcher.Event :=
  (QuotaFetcher.TcpProbe <$> QuotaFetcher.scanWindow)
  ++ (QuotaFetcher.Handshake <$>
        filter (open_port env attempt)
               (QuotaFetcher.settleOrder env attempt QuotaFetcher.scanWindow)).

(** The I/O of the port scan of an attempt: none when the attempt finds no
    token. *)
Definition attempt_probes (env : QuotaFetcher.Env) (attempt : nat)
  : list QuotaFetcher.Event :=
  match token_at env attempt with
  | Some _ => scan_events env attempt
  | None => []
  end.

(** What the port scan of an attempt may issue: nothing when the attempt
    finds no token, the I/O of a scan otherwise. *)
Definition attempt_io (env : QuotaFetcher.Env) (attempt : nat)
    (events : list QuotaFetcher.Event) : Prop :=
  match token_at env attempt with
  | Some _ => scan_io env attempt events
  | None => events = []
  end.

(** The wait after a failed attempt: two seconds, unless the attempt was
    the last. *)
Definition backoff_events (attempt maxRetries : nat)
  : list QuotaFetcher.Event :=
  if (attempt <? maxRetries)%nat then [QuotaFetcher.Delay 2000] else [].

(** The number of back-off delays a fetcher has waited. *)
Definition delays (s : QuotaFetcher.Fetcher) : nat :=
  length (List.filter
            (fun ev => match ev with
                       | QuotaFetcher.Delay _ => true
                       | _ => false
                       end) (QuotaFetcher.trace s)).

(** A run of dispatches, each with the time it happens at. *)
Definition dispatchAll (steps : list (Z * QuotaAction)) (s : QuotaStore.Store)
  : QuotaStore.Store :=
  foldl (fun st step => QuotaStore.dispatch step.1 step.2 st) s steps.

(** The states a poll hands to the subscribers. *)
Definition poll_notifications (env : QuotaFetcher.Env) (now : Z)
    (config : QuotaConfig) (a : Extension.App) : list QuotaState :=
  drop (length (QuotaStore.notified (Extension.store a)))
       (QuotaStore.notified (Extension.store (Extension.poll env now config a))).

End Spec.

(** * Properties *)

(** ** Facts about the built-ins *)

Module JsFacts.
Import Js.

Lemma slice_last_length {A} (n : nat) (l : list A) :
  length (slice_last n l) = (length l `min` n)%nat.
Proof. unfold slice_last. rewrite length_drop. lia. Qed.

Lemma slice_last_suffix {A} (n : nat) (l : list A) :
  slice_last n l `suffix_of` l.
Proof. apply suffix_drop. Qed.

Lemma slice_last_short {A} (n : nat) (l : list A) :
  (length l <= n)%nat -> slice_last n l = l.
Proof.
  intros Hle. unfold slice_last.
  replace (length l - n)%nat with 0%nat by lia. reflexivity.
Qed.

Lemma slice_last_split {A} (n : nat) (l : list A) :
  l = take (length l - n) l ++ slice_last n l.
Proof. unfold slice_last. symmetry. apply take_drop. Qed.

(** [Math.round] maps the closed interval [lo, hi] between two integers
    into itself. *)
Lemma Math_round_between (x : Q) (lo hi : Z) :
  (inject_Z lo <= x)%Q -> (x <= inject_Z hi)%Q ->
  lo <= Math_round x <= hi.
Proof.
  intros Hlo Hhi. unfold Math_round. split.
  - rewrite <- (Qfloor_Z lo). apply Qfloor_resp_le. lra.
  - assert (Hlt : Qfloor (x + (1 # 2)) < hi + 1); [|lia].
    rewrite Zlt_Qlt.
    eapply Qle_lt_trans; [apply Qfloor_le|].
    rewrite inject_Z_plus. change (inject_Z 1) with 1%Q. lra.
Qed.

Lemma Math_round_Z (z : Z) : Math_round (inject_Z z) = z.
Proof.
  assert (H := Math_round_between (inject_Z z) z z).
  assert (z <= Math_round (inject_Z z) <= z); [apply H; lra | lia].
Qed.

Lemma insert_by_perm {A} (cmp : A -> A -> Z) (x : A) (l : list A) :
  insert_by cmp x l ≡ₚ x :: l.
Proof.
  induction l as [|y r IH]; simpl; [done|].
  destruct (cmp x y <=? 0); [done|].
  rewrite IH. apply Permutation_swap.
Qed.

Lemma Array_sort_perm {A} (cmp : A -> A -> Z) (l : list A) :
  Array_sort cmp l ≡ₚ l.
Proof.
  induction l as [|x r IH]; simpl; [done|].
  unfold Array_sort in *. simpl. rewrite insert_by_perm. by rewrite IH.
Qed.

Section sorted.
Context {A : Type} (cmp : A -> A -> Z) (R : relation A).
Hypothesis R_before : forall x y, cmp x y <= 0 -> R x y.
Hypothesis R_after : forall x y, 0 < cmp x y -> R y x.
Hypothesis R_trans : Transitive R.

Lemma insert_by_sorted (x : A) (l : list A) :
  StronglySorted R l -> StronglySorted R (insert_by cmp x l).
Proof.
  induction 1 as [|y r Hr IH Hy]; simpl.
  - repeat constructor.
  - destruct (Z.leb_spec (cmp x y) 0) as [Hle|Hgt].
    + constructor; [by constructor|].
      constructor; [by apply R_before|].
      eapply Forall_impl; [exact Hy|].
      intros z Hz. etrans; [by apply R_before|done].
    + constructor; [done|].
      rewrite insert_by_perm. constructor; [by apply R_after|done].
Qed.

Lemma Array_sort_sorted (l : list A) : StronglySorted R (Array_sort cmp l).
Proof.
  induction l as [|x r IH]; [constructor|].
  unfold Array_sort in *. simpl. by apply insert_by_sorted.
Qed.
End sorted.

Lemma StronglySorted_sublist {A} (R : relation A) (l1 l2 : list A) :
  l1 `sublist_of` l2 -> StronglySorted R l2 -> StronglySorted R l1.
Proof.
  induction 1 as [|x l1 l2 Hsub IH|x l1 l2 Hsub IH]; [done|..];
    intros [Hl2 Hx]%StronglySorted_inv.
  - constructor; [by apply IH|].
    apply Forall_forall. intros y Hy. rewrite Forall_forall in Hx.
    apply Hx. by eapply elem_of_sublist.
  - by apply IH.
Qed.

Lemma Math_min_None (zs : list Z) : Math_min zs = None <-> zs = [].
Proof.
  destruct zs as [|z r]; [done|]. simpl.
  destruct (Math_min r); split; discriminate.
Qed.

Lemma Math_min_Some (zs : list Z) (lo : Z) :
  Math_min zs = Some lo <-> lo ∈ zs /\ Forall (fun z => lo <= z) zs.
Proof.
  revert lo. induction zs as [|z r IH]; intros lo; simpl.
  - split; [discriminate|]. intros [H _]. by apply elem_of_nil in H.
  - destruct (Math_min r) as [y|] eqn:Hr.
    + destruct (IH y) as [IH1 _]. destruct (IH1 eq_refl) as [Hin Hall].
      split.
      * intros [= <-]. split.
        -- destruct (Z.min_spec z y) as [[_ ->]|[_ ->]];
             [apply list_elem_of_here | by apply list_elem_of_further].
        -- constructor; [lia|].
           eapply Forall_impl; [exact Hall|]. simpl. intros; lia.
      * intros [Hlo Hle]. f_equal.
        apply Forall_cons in Hle as [Hz Hrest].
        rewrite Forall_forall in Hrest, Hall.
        apply elem_of_cons in Hlo as [->|Hlo].
        -- specialize (Hrest y Hin). lia.
        -- specialize (Hall lo Hlo). specialize (Hrest y Hin). lia.
    + apply Math_min_None in Hr as ->. split.
      * intros [= <-]. split; [apply list_elem_of_here|].
        repeat constructor. lia.
      * intros [Hlo _]. apply elem_of_cons in Hlo as [->|Hlo]; [done|].
        by apply elem_of_nil in Hlo.
Qed.

Lemma Math_max_None (xs : list Q) : Math_max xs = None <-> xs = [].
Proof.
  destruct xs as [|x r]; [done|]. simpl.
  destruct (Math_max r); split; discriminate.
Qed.

(** The maximum is an upper bound and is reached. *)
Lemma Math_max_Some (xs : list Q) (hi : Q) :
  Math_max xs = Some hi ->
  Forall (fun x => x <= hi)%Q xs /\ Exists (fun x => x == hi)%Q xs.
Proof.
  revert hi. induction xs as [|x r IH]; intros hi; simpl; [discriminate|].
  destruct (Math_max r) as [y|] eqn:Hr.
  - destruct (IH y eq_refl) as [Hall Hex]. intros [= <-]. split.
    + constructor; [apply Q.le_max_l|].
      eapply Forall_impl; [exact Hall|]. simpl. intros z Hz.
      eapply Qle_trans; [exact Hz|apply Q.le_max_r].
    + destruct (Q.max_spec x y) as [[_ Hm]|[_ Hm]].
      * apply Exists_cons_tl. eapply Exists_impl; [exact Hex|].
        simpl. intros z Hz. by rewrite Hz, Hm.
      * apply Exists_cons_hd. by rewrite Hm.
  - apply Math_max_None in Hr as ->. intros [= <-]. split.
    + repeat constructor. apply Qle_refl.
    + apply Exists_cons_hd. reflexivity.
Qed.

(** Upper bound and reached: that is the maximum, up to [==]. *)
Lemma Math_max_unique (xs : list Q) (hi x : Q) :
  Math_max xs = Some hi -> x ∈ xs -> Forall (fun y => y <= x)%Q xs ->
  (x == hi)%Q.
Proof.
  intros Hmax Hin Hub. destruct (Math_max_Some xs hi Hmax) as [Hall Hex].
  apply Qle_antisym.
  - rewrite Forall_forall in Hall. by apply Hall.
  - apply Exists_exists in Hex as (z & Hz & Hzhi).
    rewrite Forall_forall in Hub. rewrite <- Hzhi. by apply Hub.
Qed.

End JsFacts.

(** ** InsightsEngine *)

Module InsightsEngineSpec.
Import Js Types InsightsEngine Spec JsFacts.

(** *** What a pass over the models leaves untouched *)

Lemma analyzeModel_history now e m all pinned :
  history (analyzeModel now e m all pinned).2 = history e.
Proof. unfold analyzeModel. simpl. by destruct (detectActiveModel e m all). Qed.

Lemma analyzeModel_lastActive now e m all pinned :
  lastActiveModelId (analyzeModel now e m all pinned).2 =
  if detectActiveModel e m all then Some (modelId m) else lastActiveModelId e.
Proof. unfold analyzeModel. simpl. by destruct (detectActiveModel e m all). Qed.

Lemma analyzeModel_enriched now e m all pinned :
  enriched_from (history e) m (analyzeModel now e m all pinned).1.
Proof. by unfold enriched_from, analyzeModel, getHistoryData. Qed.

Lemma analyzeEach_enriched now e todo all pinned :
  history (analyzeEach now e todo all pinned).2 = history e /\
  Forall2 (enriched_from (history e)) todo (analyzeEach now e todo all pinned).1.
Proof.
  revert e. induction todo as [|m rest IH]; intros e; cbn [analyzeEach]; [split; [done|constructor]|].
  destruct (analyzeModel now e m all pinned) as [em e1] eqn:Hm.
  destruct (analyzeEach now e1 rest all pinned) as [ems e2] eqn:Hrest.
  specialize (IH e1). rewrite Hrest in IH. simpl in *.
  assert (He1 : history e1 = history e).
  { pose proof (analyzeModel_history now e m all pinned) as H.
    by rewrite Hm in H. }
  rewrite He1 in IH. destruct IH as [IH1 IH2]. split; [done|].
  constructor; [|done].
  pose proof (analyzeModel_enriched now e m all pinned) as H.
  by rewrite Hm in H.
Qed.

Lemma recordHistory_history now ms e :
  history (recordHistory now ms e) = history e ++ [snapshot now ms].
Proof. done. Qed.

Lemma analyze_models now e ms config :
  (analyze now e ms config).1.1 = Array_sort byPriority (enriched now e ms config).
Proof.
  unfold analyze, enriched.
  by destruct (analyzeEach _ _ _ _ _) as [ems e3].
Qed.

Lemma analyze_perm now e ms config :
  (analyze now e ms config).1.1 ≡ₚ enriched now e ms config.
Proof. rewrite analyze_models. apply Array_sort_perm. Qed.

Lemma enriched_from_history now e ms config :
  Forall2 (enriched_from (history e ++ [snapshot now ms])) ms
          (enriched now e ms config).
Proof.
  unfold enriched.
  by destruct (analyzeEach_enriched now
                 (initSessionTracking ms (recordHistory now ms e)) ms ms
                 (pinnedModels config)) as [_ H].
Qed.

Lemma enriched_quota now e ms config :
  map quota (enriched now e ms config) = ms.
Proof.
  pose proof (enriched_from_history now e ms config) as H.
  induction H as [|m em ms' ems' [Hq _] _ IH]; simpl; [done|].
  by rewrite Hq, IH.
Qed.

Lemma analyze_each_model now e ms config (P : EnrichedModel -> Prop) :
  (forall m em, enriched_from (history e ++ [snapshot now ms]) m em -> P em) ->
  Forall P (analyze now e ms config).1.1.
Proof.
  intros HP. rewrite analyze_perm.
  pose proof (enriched_from_history now e ms config) as H.
  induction H; constructor; eauto.
Qed.

(** *** Burn rate *)




(** *** Burn-rate label *)

(** C8, as the code has it. With a history of exactly two entries one
    hour apart in which model A falls from 100 to 80, the burn rate of A
    is exactly 20 %/hour; 20 exceeds the 15 %/hour bound of "Fast", so
    its label is "Very Fast". *)
Theorem twenty_per_hour_is_very_fast (t0 : Z) (before after : gmap string Z)
    (A : string) :
  before !! A = Some 100 ->
  after !! A = Some 80 ->
  let h := [ {| timestamp := t0; models := before |};
             {| timestamp := t0 + 60 * 60 * 1000; models := after |} ] in
  (calculateBurnRate h A == 20)%Q /\
  getBurnRateLabel (calculateBurnRate h A) = "Very Fast".
Proof.
  intros Hb Ha h.
  assert (Hrate : calculateBurnRate h A = Qmax 0 (20 / (3600000 / 3600000))).
  { unfold h, calculateBurnRate, deltaHours. simpl. rewrite Hb, Ha.
    replace (t0 + 60 * 60 * 1000 - t0) with 3600000 by lia. done. }
  rewrite Hrate. split; reflexivity.
Qed.

Lemma twenty_per_hour_is_very_fast_witness :
  let h := [ {| timestamp := 1000; models := {[ "A" := 100 ]} |};
             {| timestamp := 1000 + 60 * 60 * 1000;
                models := {[ "A" := 80 ]} |} ] in
  (calculateBurnRate h "A" == 20)%Q /\
  getBurnRateLabel (calculateBurnRate h "A") = "Very Fast".
Proof.
  apply (twenty_per_hour_is_very_fast 1000 {[ "A" := 100 ]} {[ "A" := 80 ]} "A");
    reflexivity.
Defined.

(** C8 as stated fails: on this two-entry history the burn rate of A is
    20 %/hour and the label is not "Moderate". *)
Lemma twenty_per_hour_is_not_moderate :
  let h := [ {| timestamp := 0; models := {[ "A" := 100 ]} |};
             {| timestamp := 60 * 60 * 1000; models := {[ "A" := 80 ]} |} ] in
  (calculateBurnRate h "A" == 20)%Q /\
  getBurnRateLabel (calculateBurnRate h "A") <> "Moderate".
Proof. split; [reflexivity|]. vm_compute. discriminate. Qed.

(** *** Sparkline *)

(** C9. For every model of an analysis the sparkline holds one value for
    each of the last 20 entries of the in-memory history (all of them
    when there are fewer), the snapshot just recorded being the last; the
    value is the model's percentage in that entry, and 100 where the
    entry does not mention the model. The result lists exactly the input
    models. *)
Theorem sparkline_of_last_twenty (now : Z) (e : Engine) (ms : list ModelQuota)
    (config : QuotaConfig) :
  let h := history e ++ [snapshot now ms] in
  Forall (fun em : EnrichedModel =>
            historyData (insights em) =
              map (fun entry =>
                     match models entry !! modelId em with
                     | Some percent => percent
                     | None => 100
                     end)
                  (drop (length h - 20) h) /\
            length (historyData (insights em)) = (length h `min` 20)%nat)
         (analyze now e ms config).1.1 /\
  map quota (analyze now e ms config).1.1 ≡ₚ ms.
Proof.
  intros h. split.
  - apply analyze_each_model. intros m em (Hq & _ & _ & Hd).
    rewrite Hd, Hq. split; [done|].
    rewrite length_map. apply slice_last_length.
  - rewrite analyze_perm. by rewrite enriched_quota.
Qed.

(** *** Persistence *)

(** C6. Saving persists only entries newer than the 24-hour cutoff, and
    of those the last 200 at most, the ones dropped being the head of the
    array, which are the oldest when the history is in time order; every
    persisted entry is an entry of the
    in-memory history, unchanged and in the same order. Reloading gives
    back the persisted entries, timestamp and percentages as they were,
    less those that have fallen behind the 24-hour cutoff of the time of
    loading; loaded no later than saved, all come back. A new engine
    built on the saved storage starts from that reloaded history. *)
Theorem history_round_trip (now later : Z) (e : Engine) :
  let saved := saveHistory now e in
  let stored := default [] (globalState saved !! STORAGE_KEY) in
  let reloaded := history (loadHistory later saved) in
  let fresh := filter (fun x => now - 24 * 60 * 60 * 1000 < timestamp x)
                      (history e) in
  Forall (fun x => now - 24 * 60 * 60 * 1000 < timestamp x) stored /\
  (length stored = length fresh `min` 200)%nat /\
  stored `suffix_of` fresh /\
  (StronglySorted (fun x y => timestamp x <= timestamp y) (history e) ->
   forall dropped x y,
     fresh = dropped ++ stored -> x ∈ dropped -> y ∈ stored ->
     timestamp x <= timestamp y) /\
  stored `sublist_of` history e /\
  reloaded = filter (fun x => later - 24 * 60 * 60 * 1000 < timestamp x) stored /\
  reloaded `sublist_of` stored /\
  (forall x, x ∈ reloaded <->
             x ∈ stored /\ later - 24 * 60 * 60 * 1000 < timestamp x) /\
  (later <= now -> reloaded = stored) /\
  history (InsightsEngine.new (globalState saved) later) = reloaded.
Proof.
  intros saved stored reloaded fresh.
  assert (Hstored : stored = slice_last 200 fresh).
  { unfold stored, saved, saveHistory. simpl. by rewrite lookup_insert_eq. }
  assert (Hreloaded :
    reloaded = filter (fun x => later - 24 * 60 * 60 * 1000 < timestamp x) stored).
  { done. }
  assert (Hsuffix : stored `suffix_of` fresh).
  { rewrite Hstored. apply slice_last_suffix. }
  assert (Hfresh : Forall (fun x => now - 24 * 60 * 60 * 1000 < timestamp x) stored).
  { apply Forall_forall. intros x Hx.
    assert (Hin : x ∈ fresh).
    { destruct Hsuffix as [pre ->]. apply elem_of_app. by right. }
    by apply list_elem_of_filter in Hin as [? _]. }
  split_and!.
  - done.
  - rewrite Hstored. apply slice_last_length.
  - done.
  - intros Hsorted dropped x y Hsplit Hx Hy.
    assert (Hfs : StronglySorted (fun x y => timestamp x <= timestamp y) fresh).
    { eapply StronglySorted_sublist; [|exact Hsorted].
      apply sublist_filter; apply _. }
    rewrite Hsplit in Hfs.
    by apply (StronglySorted_app_1_elem_of _ _ _ _ _ Hfs).
  - trans fresh; [|apply sublist_filter; apply _].
    rewrite Hstored. apply sublist_drop.
  - done.
  - rewrite Hreloaded. apply sublist_filter.
  - intros x. rewrite Hreloaded, list_elem_of_filter. tauto.
  - intros Hle. rewrite Hreloaded.
    clear -Hfresh Hle. induction Hfresh as [|x l Hx _ IH]; [done|].
    rewrite filter_cons_True by lia. by rewrite IH.
  - done.
Qed.

(** *** Ordering *)

Lemma byPriority_before (a b : EnrichedModel) :
  byPriority a b <= 0 -> precedes a b.
Proof.
  unfold byPriority, precedes.
  destruct (isPinned (insights a)), (isPinned (insights b)),
    (isActive (insights a)), (isActive (insights b)); simpl; intros; (try lia); tauto.
Qed.

Lemma byPriority_after (a b : EnrichedModel) :
  0 < byPriority a b -> precedes b a.
Proof.
  unfold byPriority, precedes.
  destruct (isPinned (insights a)), (isPinned (insights b)),
    (isActive (insights a)), (isActive (insights b)); simpl; intros;
    (try lia); (try tauto); right; (split; [done|]); right; (split; [done|]); lia.
Qed.

#[local] Instance precedes_trans : Transitive precedes.
Proof.
  intros a b c. unfold precedes.
  destruct (isPinned (insights a)), (isPinned (insights b)),
    (isPinned (insights c)), (isActive (insights a)), (isActive (insights b)),
    (isActive (insights c)); intros Hab Hbc;
    intuition (discriminate || lia).
Qed.

(** C7. The models [analyze] returns are the input models, ordered by
    pinned descending, then active descending, then remaining percentage
    ascending. Of an unpinned active model at 60 % and a pinned inactive
    model at 90 %, the pinned one sorts first, whichever came first. *)
Theorem analyze_sorted_by_priority (now : Z) (e : Engine)
    (ms : list ModelQuota) (config : QuotaConfig) :
  StronglySorted precedes (analyze now e ms config).1.1 /\
  map quota (analyze now e ms config).1.1 ≡ₚ ms /\
  (forall a b : EnrichedModel,
      isPinned (insights a) = false -> isActive (insights a) = true ->
      remainingPercent a = 60 ->
      isPinned (insights b) = true -> isActive (insights b) = false ->
      remainingPercent b = 90 ->
      Array_sort byPriority [a; b] = [b; a] /\
      Array_sort byPriority [b; a] = [b; a]).
Proof.
  split_and!.
  - rewrite analyze_models.
    apply (Array_sort_sorted byPriority precedes);
      [apply byPriority_before | apply byPriority_after | apply _].
  - rewrite analyze_perm.
    by rewrite enriched_quota.
  - intros a b Hpa Haa Hra Hpb Hab Hrb.
    unfold Array_sort, byPriority. simpl.
    by rewrite Hpa, Haa, Hpb, Hab.
Qed.

(** *** Active model *)

Lemma burnRates_rates (h : list HistoryEntry) (all : list ModelQuota) :
  map snd (map (fun m => (modelId m, calculateBurnRate h (modelId m))) all) =
  rate h <$> all.
Proof. induction all as [|m r IH]; simpl; [done|]. by rewrite IH. Qed.

Lemma highestBurner_iff (h : list HistoryEntry) (m : ModelQuota)
    (all : list ModelQuota) :
  highestBurner h m all = true <-> highest_burn_rule h m all.
Proof.
  unfold highestBurner, highest_burn_rule. rewrite burnRates_rates.
  change (map ?f all) with (f <$> all).
  set (f := fun m0 : ModelQuota => (modelId m0, calculateBurnRate h (modelId m0))).
  split.
  - destruct (Nat.leb_spec 2 (length h)) as [Hlen|]; [|discriminate].
    destruct (Math_max (rate h <$> all)) as [mx|] eqn:Hmax; [|discriminate].
    destruct (Qle_bool mx (1 # 2)) eqn:Hhalf; [discriminate|]. simpl.
    destruct (list_find _ _) as [[i b]|] eqn:Hfind; [|discriminate].
    intros Hid%String.eqb_eq.
    apply list_find_Some in Hfind as (Hi & Hb & Hfirst).
    rewrite list_lookup_fmap in Hi.
    destruct (all !! i) as [first|] eqn:Hall; [|discriminate].
    injection Hi as <-. simpl in *.
    apply Math_max_Some in Hmax as [Hub _].
    assert (Hgt : (1 # 2 < mx)%Q).
    { apply Qnot_le_lt. intros Hle. apply Qle_bool_iff in Hle. congruence. }
    split; [done|]. exists i, first. unfold rate at 1 2 3. split_and!; try done.
    + by rewrite Hb.
    + intros m' Hm'. rewrite Hb. rewrite Forall_forall in Hub.
      apply Hub. apply list_elem_of_fmap. by exists m'.
    + intros j m' Hj Hlt Heq. apply (Hfirst j (f m')); [|done|].
      * by rewrite list_lookup_fmap, Hj.
      * simpl. by rewrite <- Hb.
  - intros (Hlen & i & first & Hi & Hid & Hgt & Hub & Hfirst).
    destruct (Nat.leb_spec 2 (length h)); [|lia].
    destruct (Math_max (rate h <$> all)) as [mx|] eqn:Hmax.
    2:{ apply Math_max_None, fmap_nil_inv in Hmax. by subst. }
    assert (Hmx : (rate h first == mx)%Q).
    { apply (Math_max_unique _ _ _ Hmax).
      - apply list_elem_of_fmap. exists first. split; [done|].
        by eapply list_elem_of_lookup_2.
      - apply Forall_forall. intros x (m' & -> & Hm')%list_elem_of_fmap.
        by apply Hub. }
    destruct (Qle_bool mx (1 # 2)) eqn:Hhalf.
    { apply Qle_bool_iff in Hhalf. rewrite <- Hmx in Hhalf.
      exfalso. by apply (Qlt_not_le _ _ Hgt). }
    simpl.
    assert (Hfind : list_find (fun b => (b.2 == mx)%Q) (f <$> all)
                    = Some (i, f first)).
    { apply list_find_Some. split_and!.
      - by rewrite list_lookup_fmap, Hi.
      - done.
      - intros j y Hj Hlt. rewrite list_lookup_fmap in Hj.
        destruct (all !! j) as [m'|] eqn:Hm'; [|discriminate].
        injection Hj as <-. simpl. intros Hy.
        apply (Hfirst j m' Hm' Hlt). unfold rate. by rewrite Hy, <- Hmx. }
    rewrite Hfind. simpl. by apply String.eqb_eq.
Qed.

Lemma lowestRemaining_iff (m : ModelQuota) (all : list ModelQuota) :
  lowestRemaining m all = true <-> lowest_remaining_rule m all.
Proof.
  unfold lowestRemaining, lowest_remaining_rule.
  change (map ?f all) with (f <$> all). split.
  - destruct (Math_min _) as [lo|] eqn:Hmin; [|discriminate].
    intros [Heq%Z.eqb_eq Hlt%Z.ltb_lt]%andb_true_iff. subst lo.
    apply Math_min_Some in Hmin as [Hin Hall]. split_and!; [|..|done].
    + apply list_elem_of_fmap in Hin as (m' & ? & ?). by exists m'.
    + intros m' Hm'. rewrite Forall_forall in Hall. apply Hall.
      apply list_elem_of_fmap. by exists m'.
  - intros ((m' & Hm' & Heq) & Hlow & Hlt).
    assert (Hmin : Math_min (remainingPercent <$> all)
                   = Some (remainingPercent m)).
    { apply Math_min_Some. split.
      - apply list_elem_of_fmap. by exists m'.
      - apply Forall_forall. intros z (m'' & -> & ?)%list_elem_of_fmap.
        by apply Hlow. }
    rewrite Hmin. apply andb_true_iff. split; [lia|]. by apply Z.ltb_lt.
Qed.

Lemma detectActiveModel_iff (e : Engine) (m : ModelQuota)
    (all : list ModelQuota) :
  detectActiveModel e m all = true <->
  highest_burn_rule (history e) m all \/
  last_active_rule (lastActiveModelId e) m \/
  lowest_remaining_rule m all.
Proof.
  unfold detectActiveModel, last_active_rule.
  rewrite <- highestBurner_iff, <- lowestRemaining_iff.
  destruct (highestBurner (history e) m all); [tauto|].
  case_bool_decide; [tauto|].
  destruct (lowestRemaining m all); intuition discriminate.
Qed.

Lemma detectActiveModel_ext (e e' : Engine) (m : ModelQuota)
    (all : list ModelQuota) :
  history e = history e' -> lastActiveModelId e = lastActiveModelId e' ->
  detectActiveModel e m all = detectActiveModel e' m all.
Proof. unfold detectActiveModel. by intros -> ->. Qed.

(** The verdict on the [i]-th model is [detectActiveModel] on the engine
    as the models before it left it. *)
Lemma analyzeEach_active now e todo all pinned (i : nat) (em : EnrichedModel) :
  (analyzeEach now e todo all pinned).1 !! i = Some em ->
  isActive (insights em) = true <->
  highest_burn_rule (history e) em all \/
  last_active_rule
    (last_active_after (lastActiveModelId e)
       (take i (analyzeEach now e todo all pinned).1)) em \/
  lowest_remaining_rule em all.
Proof.
  revert e i. induction todo as [|m rest IH]; intros e i; cbn [analyzeEach].
  { cbn [fst]. by rewrite lookup_nil. }
  pose proof (analyzeModel_history now e m all pinned) as Hh.
  pose proof (analyzeModel_lastActive now e m all pinned) as Hl.
  destruct (analyzeModel now e m all pinned) as [em0 e1] eqn:Hm.
  assert (Hem0 : isActive (insights em0) = detectActiveModel e m all
                 /\ quota em0 = m).
  { unfold analyzeModel in Hm. by injection Hm as <- _. }
  destruct Hem0 as [Hact Hq].
  specialize (IH e1). destruct (analyzeEach now e1 rest all pinned) as [ems e2].
  simpl in *. destruct i as [|j]; simpl.
  - intros [= <-]. rewrite Hact, Hq. apply detectActiveModel_iff.
  - intros Hj. rewrite (IH j Hj), Hh, Hl.
    unfold last_active_after at 2. simpl.
    by rewrite Hact, Hq.
Qed.

Lemma analyzeEach_lastActive now e todo all pinned :
  lastActiveModelId (analyzeEach now e todo all pinned).2 =
  last_active_after (lastActiveModelId e) (analyzeEach now e todo all pinned).1.
Proof.
  revert e. induction todo as [|m rest IH]; intros e; cbn [analyzeEach]; [done|].
  pose proof (analyzeModel_lastActive now e m all pinned) as Hl.
  destruct (analyzeModel now e m all pinned) as [em0 e1] eqn:Hm.
  assert (Hem0 : isActive (insights em0) = detectActiveModel e m all
                 /\ quota em0 = m).
  { unfold analyzeModel in Hm. by injection Hm as <- _. }
  destruct Hem0 as [Hact Hq].
  specialize (IH e1). destruct (analyzeEach now e1 rest all pinned) as [ems e2].
  simpl in *. rewrite IH, Hl. unfold last_active_after. simpl.
  by rewrite Hact, Hq.
Qed.

(** C4, as the code has it. Every model of an analysis is tested on its
    own and is active when one of three rules holds for it: (1) the
    history holds two entries, the maximum burn rate over all models
    exceeds 0.5 %/hour and the model is the first of the list to reach
    it; (2) its id is the last-active id as it stands when the model is
    reached, which is the id of the latest model marked active, earlier
    in this call or else in an earlier call; (3) its remaining percentage
    is the lowest of all models and is below 90. The engine keeps the id
    of the last model marked active for the next call. *)
Theorem active_when_any_rule_holds (now : Z) (e : Engine)
    (ms : list ModelQuota) (config : QuotaConfig) :
  let h := history e ++ [snapshot now ms] in
  let ems := enriched now e ms config in
  (analyze now e ms config).1.1 ≡ₚ ems /\
  map quota ems = ms /\
  (forall (i : nat) (em : EnrichedModel),
      ems !! i = Some em ->
      isActive (insights em) = true <->
      highest_burn_rule h em ms \/
      last_active_rule
        (last_active_after (lastActiveModelId e) (take i ems)) em \/
      lowest_remaining_rule em ms) /\
  lastActiveModelId (analyze now e ms config).2 =
    last_active_after (lastActiveModelId e) ems.
Proof.
  intros h ems. split_and!.
  - apply analyze_perm.
  - apply enriched_quota.
  - intros i em Hi. unfold ems, enriched in *.
    by rewrite (analyzeEach_active _ _ _ _ _ i em Hi).
  - unfold ems, enriched, analyze.
    pose proof (analyzeEach_lastActive now
                  (initSessionTracking ms (recordHistory now ms e)) ms ms
                  (pinnedModels config)) as H.
    by destruct (analyzeEach _ _ _ _ _) as [x y].
Qed.

(** C4 as stated fails. A fresh engine sees models A (100 %) and B (50 %),
    and one hour later A at 80 % and B at 50 %. In the second analysis
    the burn rate of A is 20 %/hour, the maximum, so rule (1) applies
    and marks A; B is marked as well, by rule (3): two models are active
    in one result. *)
Lemma two_models_active_in_one_result :
  let quotaOf id percent :=
    {| modelId := id; label := id; remainingPercent := percent;
       isExhausted := false; resetTime := None; timeUntilReset := None |} in
  let config :=
    {| warningThreshold := 25; refreshInterval := 60; pinnedModels := [];
       displayStyle := percentage |} in
  let first :=
    analyze 0 (InsightsEngine.new ∅ 0) [quotaOf "A" 100; quotaOf "B" 50] config in
  let second :=
    analyze 3600000 first.2 [quotaOf "A" 80; quotaOf "B" 50] config in
  map (fun em : EnrichedModel => (modelId em, isActive (insights em)))
      second.1.1 = [("B", true); ("A", true)] /\
  active_count second.1.1 = 2%nat /\
  highestBurner (history second.2) (quotaOf "A" 80)
                [quotaOf "A" 80; quotaOf "B" 50] = true.
Proof. vm_compute. done. Qed.

(** *** The engine on the specification's sample values *)

Example prediction_two_hours : formatPrediction (40 / 20) = "~2h".
Proof. reflexivity. Qed.

Example prediction_hours_and_minutes : formatPrediction (5 # 2) = "~2h 30m".
Proof. reflexivity. Qed.

Example prediction_days : formatPrediction 50 = "~2 days".
Proof. reflexivity. Qed.

Example prediction_under_a_minute : formatPrediction (1 # 200) = "<1m".
Proof. reflexivity. Qed.

Example pinned_ignores_case :
  checkPinned "Claude Sonnet 4" ["gemini"; "SONNET"] = true.
Proof. reflexivity. Qed.

Example health_of_full_and_empty_active :
  let full := {| modelId := "a"; label := "a"; remainingPercent := 100;
                 isExhausted := false; resetTime := None;
                 timeUntilReset := None |} in
  let empty := {| modelId := "b"; label := "b"; remainingPercent := 0;
                  isExhausted := true; resetTime := None;
                  timeUntilReset := None |} in
  let ins active := {| burnRate := 0; burnRateLabel := "Minimal";
                       predictedExhaustion := None;
                       predictedExhaustionLabel := None;
                       sessionUsage := 0; isActive := active;
                       isPinned := false; historyData := [] |} in
  calculateHealth [ {| quota := full; insights := ins false |};
                    {| quota := empty; insights := ins true |} ]
  = {| score := 25; level := low; health_label := "Low" |}.
Proof. reflexivity. Qed.

Example reset_in_ninety_minutes :
  QuotaFetcher.formatTime (Some (90 * 60000 - 1)) = "1h 30m".
Proof. reflexivity. Qed.

End InsightsEngineSpec.

(** ** QuotaStore *)

Module QuotaStoreSpec.
Import Types QuotaStore.

(** C10. Dispatching an ERROR action sets [isLoading] to false and
    [error] to the message, and leaves [models], [promptCredits],
    [flowCredits], [health], [sessionStart] and [lastUpdate] as they
    were: a failed poll does not erase the data last fetched. The
    subscribers are handed the new state. *)
Theorem dispatch_error_keeps_data (now : Z) (s : Store) (message : string) :
  let s' := dispatch now (ERROR message) s in
  isLoading (state s') = false /\
  error (state s') = Some message /\
  models (state s') = models (state s) /\
  promptCredits (state s') = promptCredits (state s) /\
  flowCredits (state s') = flowCredits (state s) /\
  health (state s') = health (state s) /\
  sessionStart (state s') = sessionStart (state s) /\
  lastUpdate (state s') = lastUpdate (state s) /\
  notified s' = notified s ++ [state s'].
Proof. intros s'. by repeat split. Qed.

End QuotaStoreSpec.

(** ** QuotaFetcher *)

Module QuotaFetcherSpec.
Import Js Types QuotaFetcher Spec JsFacts.

(** *** Parsing *)

Lemma parseModels_Returned env now raw qs :
  parseModels env now raw = Returned qs ->
  qs = map (fun '(m, qi) => parseModel env now m qi) (quota_entries raw).
Proof.
  revert qs. induction raw as [|[m|] rest IH]; intros qs; simpl.
  - by intros [= <-].
  - destruct (quotaInfo m) as [qi|]; simpl.
    + destruct (parseModels env now rest) as [qs'|]; [|discriminate].
      intros [= <-]. by rewrite (IH qs').
    + apply IH.
  - discriminate.
Qed.

(** The loop over the model list returns what it returns on the entries
    of the list, and throws besides when the list cannot be iterated. *)
Lemma parseRawModels_cases env now (d : StatusData) :
  parseRawModels env now (model_configs d) =
  match model_configs d with
  | Some NotIterable => Thrown "rawModels is not iterable"
  | _ => parseModels env now (raw_models d)
  end.
Proof.
  unfold parseRawModels, raw_models.
  by destruct (model_configs d) as [[entries|]|].
Qed.

Lemma parseResponse_models env now data r :
  parseResponse env now data = Returned r ->
  exists d, data = Some d /\
    models r = map (fun '(m, qi) => parseModel env now m qi)
                   (quota_entries (raw_models d)).
Proof.
  unfold parseResponse. destruct data as [d|]; [|discriminate].
  fold (model_configs d). rewrite parseRawModels_cases.
  destruct (model_configs d) as [[entries|]|] eqn:Hconfigs;
    [|discriminate|];
    (destruct (parseModels _ _ _) as [qs|] eqn:Hqs; [|discriminate]);
    intros [= <-]; exists d; (split; [done|]); simpl;
    by apply parseModels_Returned.
Qed.

Lemma parseModel_percent env now m qi :
  let fraction := default 1%Q (remainingFraction qi) in
  remainingPercent (parseModel env now m qi) = Math_round (fraction * 100) /\
  ((0 <= fraction)%Q -> (fraction <= 1)%Q ->
   0 <= remainingPercent (parseModel env now m qi) <= 100) /\
  (isExhausted (parseModel env now m qi) = true <->
   exists f, remainingFraction qi = Some f /\ (f == 0)%Q).
Proof.
  intros fraction. split_and!.
  - done.
  - intros H0 H1. simpl. fold fraction.
    apply Math_round_between; unfold inject_Z; lra.
  - simpl. fold fraction. rewrite Qeq_bool_iff. unfold fraction.
    destruct (remainingFraction qi) as [f|]; simpl.
    + split; [by exists f|]. by intros (f' & [= <-] & ?).
    + split; [discriminate|]. by intros (f' & [=] & _).
Qed.

(** C2. When the status body parses, the model list holds one entry for
    each raw entry that carries quota info, in order; for each of them
    [remainingPercent] is round(remainingFraction * 100), a missing
    fraction counting as 1; it lies between 0 and 100 when the fraction
    lies between 0 and 1; and [isExhausted] is true exactly when the
    fraction is present and equal to 0. *)
Theorem parsed_percent_and_exhaustion (env : Env) (now : Z)
    (data : option StatusData) (r : RawQuotaResponse) :
  parseResponse env now data = Returned r ->
  exists d, data = Some d /\
    Forall2
      (fun (entry : RawModelConfig * RawQuotaInfo) (q : ModelQuota) =>
         quotaInfo entry.1 = Some entry.2 /\
         let fraction := default 1%Q (remainingFraction entry.2) in
         remainingPercent q = Math_round (fraction * 100) /\
         ((0 <= fraction)%Q -> (fraction <= 1)%Q ->
          0 <= remainingPercent q <= 100) /\
         (isExhausted q = true <->
          exists f, remainingFraction entry.2 = Some f /\ (f == 0)%Q))
      (quota_entries (raw_models d)) (models r).
Proof.
  intros (d & -> & Hms)%parseResponse_models. exists d. split; [done|].
  rewrite Hms. clear Hms.
  assert (Hqi : Forall (fun entry : RawModelConfig * RawQuotaInfo =>
                          quotaInfo entry.1 = Some entry.2)
                       (quota_entries (raw_models d))).
  { apply Forall_forall. intros [m qi] Hin. unfold quota_entries in Hin.
    apply list_elem_of_omap in Hin as (entry & _ & Hentry).
    destruct entry as [m'|]; simpl in Hentry; [|discriminate].
    destruct (quotaInfo m') as [qi'|] eqn:Hq; simpl in Hentry; [|discriminate].
    by injection Hentry as -> ->. }
  induction Hqi as [|[m qi] rest Hhead _ IH]; simpl; constructor; [|done].
  split; [done|]. apply parseModel_percent.
Qed.

Lemma parsed_percent_and_exhaustion_witness :
  let env := {| platformProcessInfo := fun _ => Returned None;
                isPortOpen := fun _ _ => false;
                tcpSettledAt := fun _ _ => 0;
                testApiEndpoint := fun _ _ _ => false;
                userStatusReply := fun _ => RequestTimeout;
                JSON_parse := fun _ => None;
                Date_getTime := fun _ => None |} in
  let entry fraction :=
    Some {| rawLabel := Some "Model";
            modelOrAlias := None;
            quotaInfo := Some {| remainingFraction := fraction;
                                 rawResetTime := None |} |} in
  let status :=
    {| rawName := None; rawEmail := None; planStatus := None;
       cascadeModelConfigData :=
         Some {| clientModelConfigs :=
                   Some (Iterable [entry (Some 0%Q); entry (Some (1 # 3)%Q);
                                   entry None]) |};
       userTier := None |} in
  let data := Some (Object (Some status) status) in
  exists r, parseResponse env 0 data = Returned r /\
    map (fun q => (remainingPercent q, isExhausted q)) (models r) =
      [(0, true); (33, false); (100, false)] /\
    exists d, data = Some d /\
      Forall2
        (fun (entry : RawModelConfig * RawQuotaInfo) (q : ModelQuota) =>
           quotaInfo entry.1 = Some entry.2 /\
           let fraction := default 1%Q (remainingFraction entry.2) in
           remainingPercent q = Math_round (fraction * 100) /\
           ((0 <= fraction)%Q -> (fraction <= 1)%Q ->
            0 <= remainingPercent q <= 100) /\
           (isExhausted q = true <->
            exists f, remainingFraction entry.2 = Some f /\ (f == 0)%Q))
        (quota_entries (raw_models d)) (models r).
Proof.
  intros env entry status data.
  eexists. split; [reflexivity|]. split; [reflexivity|].
  apply (parsed_percent_and_exhaustion env 0 data). reflexivity.
Defined.


(** *** Port scanning *)

Ltac run := unfold mbind, M_bind, mret, M_ret, emit, delay; simpl.

Lemma startAll_checkPort env attempt token (l : list Z) (s : Fetcher) :
  startAll (fun p => checkPort env attempt p token) l s =
  (Returned tt,
   {| connection := connection s; trace := trace s ++ (TcpProbe <$> l) |}).
Proof.
  revert s. induction l as [|p r IH]; intros s.
  - simpl. run. rewrite app_nil_r. by destruct s.
  - cbn [startAll]. unfold mbind at 1, M_bind at 1. cbn [start checkPort].
    unfold emit at 1. rewrite IH. simpl. by rewrite <- app_assoc.
Qed.

(** The result of the check of a port. *)
Lemma resumeAll_checkPort env attempt token (settled : list Z)
    (results : gmap Z (Z * bool)) (s : Fetcher) :
  let result p := (p, isPortOpen env attempt p
                      && testApiEndpoint env attempt p token) in
  resumeAll (fun p => checkPort env attempt p token) settled results s =
  (Returned (foldl (fun acc p => <[p := result p]> acc) results settled),
   {| connection := connection s;
      trace := trace s
               ++ (Handshake <$> filter (open_port env attempt) settled) |}).
Proof.
  intros result. revert results s.
  induction settled as [|p r IH]; intros results s.
  - simpl. run. rewrite app_nil_r. by destruct s.
  - cbn [resumeAll foldl]. unfold mbind at 1, M_bind at 1.
    cbn [resume checkPort].
    destruct (isPortOpen env attempt p) eqn:Hopen.
    + rewrite filter_cons_True by done. run. rewrite IH. simpl.
      unfold result. rewrite Hopen. by rewrite <- app_assoc.
    + rewrite filter_cons_False by (unfold open_port; congruence).
      run. rewrite IH. unfold result. by rewrite Hopen.
Qed.

Lemma results_lookup {B} (result : Z -> B) (settled : list Z)
    (results : gmap Z B) (p : Z) :
  foldl (fun acc q => <[q := result q]> acc) results settled !! p =
  if decide (p ∈ settled) then Some (result p) else results !! p.
Proof.
  revert results. induction settled as [|q r IH]; intros results; simpl.
  - destruct (decide (p ∈ [])) as [Hin|]; [|done]. by apply elem_of_nil in Hin.
  - rewrite IH. destruct (decide (p ∈ r)) as [Hr|Hr].
    + rewrite decide_True; [done|]. by apply list_elem_of_further.
    + destruct (decide (p = q)) as [->|Hne].
      * rewrite lookup_insert_eq. rewrite decide_True; [done|].
        apply list_elem_of_here.
      * rewrite lookup_insert_ne by done.
        rewrite decide_False; [done|].
        intros [?|?]%elem_of_cons; done.
Qed.

(** Read in the order of the calls, the results are those of the calls
    that went on. *)
Lemma results_in_order {B} (result : Z -> B) (settled l : list Z) :
  l ⊆ settled ->
  omap (fun p => foldl (fun acc q => <[q := result q]> acc)
                       (∅ : gmap Z B) settled !! p) l
  = map result l.
Proof.
  induction l as [|p r IH]; intros Hsub; [done|].
  set (f := fun p => _ !! p). simpl. unfold f at 1.
  rewrite results_lookup, decide_True by (apply Hsub; apply list_elem_of_here).
  f_equal. subst f. apply IH.
  intros q Hq. apply Hsub. by apply list_elem_of_further.
Qed.

Lemma settleOrder_perm env attempt (ports : list Z) :
  settleOrder env attempt ports ≡ₚ ports.
Proof. apply Array_sort_perm. Qed.

Lemma settleOrder_sorted env attempt (ports : list Z) :
  StronglySorted
    (fun p q => tcpSettledAt env attempt p <= tcpSettledAt env attempt q)
    (settleOrder env attempt ports).
Proof.
  apply Array_sort_sorted.
  - intros p q. lia.
  - intros p q. lia.
  - intros p q r. lia.
Qed.

(** The handshakes the code sends are those of a scan. *)
Lemma settled_handshakes env attempt :
  scan_handshakes env attempt
    (filter (open_port env attempt) (settleOrder env attempt scanWindow)).
Proof.
  split.
  - by rewrite settleOrder_perm.
  - eapply StronglySorted_sublist; [|apply settleOrder_sorted].
    apply sublist_filter; apply _.
Qed.

Lemma scan_events_scan_io env attempt :
  scan_io env attempt (scan_events env attempt).
Proof. eexists. split; [apply settled_handshakes|done]. Qed.

Lemma all_checkPort env attempt token (s : Fetcher) :
  all (fun p => checkPort env attempt p token) scanWindow
      (settleOrder env attempt scanWindow) s =
  (Returned (map (fun p => (p, isPortOpen env attempt p
                               && testApiEndpoint env attempt p token))
                 scanWindow),
   {| connection := connection s;
      trace := trace s ++ scan_events env attempt |}).
Proof.
  unfold all. unfold mbind at 1, M_bind at 1. rewrite startAll_checkPort.
  unfold mbind at 1, M_bind at 1. rewrite resumeAll_checkPort.
  unfold mret, M_ret, scan_events. cbn [connection trace].
  rewrite <- app_assoc. f_equal. f_equal.
  apply results_in_order. intros p Hp. by rewrite settleOrder_perm.
Qed.

Lemma findApiPort_run env attempt token (s : Fetcher) :
  findApiPort env attempt token s =
  (Returned
     ((fun found => found.2.1) <$>
      list_find (fun r => r.2 = true)
        ((fun p => (p, isPortOpen env attempt p
                       && testApiEndpoint env attempt p token)) <$> scanWindow)),
   {| connection := connection s;
      trace := trace s ++ scan_events env attempt |}).
Proof.
  unfold findApiPort. unfold mbind at 1, M_bind at 1.
  by rewrite all_checkPort.
Qed.

Lemma scanWindow_lookup (i : nat) (p : Z) :
  scanWindow !! i = Some p <-> p = PORT_START + Z.of_nat i /\ in_window p.
Proof.
  unfold scanWindow, in_window. rewrite lookup_seqZ.
  unfold PORT_START, PORT_END. lia.
Qed.

Lemma works_iff env attempt token (p : Z) :
  isPortOpen env attempt p && testApiEndpoint env attempt p token = true <->
  validates env attempt token p.
Proof. unfold validates. apply andb_true_iff. Qed.

Lemma first_working_port env attempt token (p : Z) :
  (fun found : nat * (Z * bool) => found.2.1) <$>
    list_find (fun r => r.2 = true)
      ((fun p => (p, isPortOpen env attempt p
                     && testApiEndpoint env attempt p token)) <$> scanWindow)
  = Some p <->
  in_window p /\ validates env attempt token p /\
  forall q, in_window q -> q < p -> ~ validates env attempt token q.
Proof.
  rewrite fmap_Some. split.
  - intros ([i [p' w]] & (Hi & Hw & Hfirst)%list_find_Some & ->).
    cbn [fst snd] in *.
    rewrite list_lookup_fmap in Hi.
    destruct (scanWindow !! i) as [p0|] eqn:Hp0; [|discriminate].
    injection Hi as -> <-.
    apply scanWindow_lookup in Hp0 as [Hp0 Hwin].
    split_and!; [done|by apply works_iff|].
    intros q Hq Hlt Hvalid.
    apply (Hfirst (Z.to_nat (q - PORT_START))
                  (q, isPortOpen env attempt q
                      && testApiEndpoint env attempt q token)).
    + rewrite list_lookup_fmap.
      assert (Hl : scanWindow !! Z.to_nat (q - PORT_START) = Some q).
      { apply scanWindow_lookup. unfold in_window in *. split; [lia|done]. }
      by rewrite Hl.
    + unfold in_window in *. lia.
    + simpl. by apply works_iff.
  - intros (Hwin & Hvalid & Hfirst).
    exists (Z.to_nat (p - PORT_START),
            (p, isPortOpen env attempt p && testApiEndpoint env attempt p token)).
    split; [|done]. apply list_find_Some. split_and!.
    + rewrite list_lookup_fmap.
      assert (Hl : scanWindow !! Z.to_nat (p - PORT_START) = Some p).
      { apply scanWindow_lookup. unfold in_window in *. split; [lia|done]. }
      by rewrite Hl.
    + simpl. by apply works_iff.
    + intros j [q w] Hj Hlt. rewrite list_lookup_fmap in Hj.
      destruct (scanWindow !! j) as [q0|] eqn:Hq0; [|discriminate].
      injection Hj as -> <-. simpl.
      apply scanWindow_lookup in Hq0 as [Hq0 Hqwin].
      rewrite works_iff. apply Hfirst; [done|].
      unfold in_window in *. lia.
Qed.

Lemma no_working_port env attempt token :
  (fun found : nat * (Z * bool) => found.2.1) <$>
    list_find (fun r => r.2 = true)
      ((fun p => (p, isPortOpen env attempt p
                     && testApiEndpoint env attempt p token)) <$> scanWindow)
  = None <->
  forall q, in_window q -> ~ validates env attempt token q.
Proof.
  rewrite fmap_None, list_find_None, Forall_forall. split.
  - intros Hnone q Hq Hvalid.
    apply (Hnone (q, isPortOpen env attempt q
                     && testApiEndpoint env attempt q token)).
    + apply list_elem_of_fmap. exists q. split; [done|].
      apply list_elem_of_lookup. exists (Z.to_nat (q - PORT_START)).
      apply scanWindow_lookup. unfold in_window in *. split; [lia|done].
    + simpl. by apply works_iff.
  - intros Hnone [q w] (q0 & [= -> ->] & Hin)%list_elem_of_fmap. simpl.
    apply list_elem_of_lookup in Hin as [i Hi].
    apply scanWindow_lookup in Hi as [_ Hwin].
    rewrite works_iff. by apply Hnone.
Qed.

(** C3, as the code has it. Discovery starts a TCP probe for every port
    of the scan window 8090..8150, in ascending order, before it sends
    any handshake. It then sends the validation handshake to every open
    port of the window, once each, in the order in which their TCP
    probes settle, whatever the other ports answer. The port accepted is
    the lowest-numbered port of the window that is open and answers
    HTTP 200, and no port is accepted when there is none. *)
Theorem lowest_valid_port_wins (env : Env) (attempt : nat) (token : string)
    (s : Fetcher) :
  exists (found : option Z) (handshakes : list Z),
    findApiPort env attempt token s =
      (Returned found,
       {| connection := connection s;
          trace := trace s ++ (TcpProbe <$> seqZ 8090 61)
                           ++ (Handshake <$> handshakes) |}) /\
    handshakes ≡ₚ filter (fun q => isPortOpen env attempt q = true)
                         (seqZ 8090 61) /\
    StronglySorted
      (fun p q => tcpSettledAt env attempt p <= tcpSettledAt env attempt q)
      handshakes /\
    (forall p, found = Some p <->
       in_window p /\ validates env attempt token p /\
       forall q, in_window q -> q < p -> ~ validates env attempt token q) /\
    (found = None <-> forall q, in_window q -> ~ validates env attempt token q).
Proof.
  eexists _, _. split; [apply findApiPort_run|].
  destruct (settled_handshakes env attempt) as [Hperm Hsorted].
  split_and!.
  - exact Hperm.
  - exact Hsorted.
  - apply first_working_port.
  - apply no_working_port.
Qed.

(** C3 as stated fails. Ports 8090 and 8091 are open and valid, and the
    probe of 8091 settles first: port 8090 is accepted, and the
    handshake has been sent to both ports, to 8091 before 8090. *)
Lemma handshake_sent_past_the_accepted_port :
  let env := {| platformProcessInfo := fun _ => Returned None;
                isPortOpen := fun _ p => (p =? 8090) || (p =? 8091);
                tcpSettledAt := fun _ p => if p =? 8091 then 1 else 2;
                testApiEndpoint := fun _ _ _ => true;
                userStatusReply := fun _ => RequestTimeout;
                JSON_parse := fun _ => None;
                Date_getTime := fun _ => None |} in
  let run := findApiPort env 1 "abc123" QuotaFetcher.new in
  run.1 = Returned (Some 8090) /\
  trace run.2 =
    (TcpProbe <$> seqZ 8090 61) ++ [Handshake 8091; Handshake 8090].
Proof. intros env run. split; by vm_compute. Qed.

(** *** fetch *)

Lemma status_requests_app (c c' : option ConnectionParams)
    (t evs : list Event) :
  Forall (fun ev => match ev with StatusRequest _ => False | _ => True end) evs ->
  status_requests {| connection := c; trace := t ++ evs |} =
  status_requests {| connection := c'; trace := t |}.
Proof.
  intros Hevs. unfold status_requests. simpl.
  rewrite List.filter_app, length_app.
  induction Hevs as [|ev evs Hev _ IH]; simpl; [lia|].
  by destruct ev.
Qed.

Lemma backoff_run (attempt maxRetries : nat) (s : Fetcher) :
  exists s', backoff attempt maxRetries s = (Returned tt, s') /\
             connection s' = connection s /\
             status_requests s' = status_requests s.
Proof.
  unfold backoff. destruct (attempt <? maxRetries)%nat.
  - eexists. split; [reflexivity|]. split; [done|].
    destruct s as [c t]. apply (status_requests_app c c t [Delay 2000]).
    by repeat constructor.
  - by exists s.
Qed.

Lemma getProcessInfo_run env attempt (s : Fetcher) :
  exists info, getProcessInfo env attempt s = (Returned info, s).
Proof.
  unfold getProcessInfo, try_catch, lift.
  destruct (platformProcessInfo env attempt) as [info|msg]; eauto.
Qed.

Lemma findApiPort_quiet env attempt token (s : Fetcher) :
  exists found s', findApiPort env attempt token s = (Returned found, s') /\
                   connection s' = connection s /\
                   status_requests s' = status_requests s.
Proof.
  rewrite findApiPort_run. eexists _, _. split; [reflexivity|].
  split; [done|]. destruct s as [c t]. apply status_requests_app.
  apply Forall_forall. intros ev Hev. unfold scan_events in Hev.
  by apply elem_of_app in Hev as [Hev|Hev];
    apply list_elem_of_fmap in Hev as (q & -> & _).
Qed.

(** The thing a turn of the retry loop leaves behind: no status request
    is issued; when the turn returns it returns [true] with a
    connection stored, otherwise the connection is as it was. *)
Lemma connectAttempt_run env (attempt maxRetries : nat) (s : Fetcher) :
  exists turn s',
    connectAttempt env attempt maxRetries s = (Returned turn, s') /\
    status_requests s' = status_requests s /\
    match turn with
    | Continue => connection s' = connection s
    | Return b => b = true /\ is_Some (connection s')
    end.
Proof.
  unfold connectAttempt, try_catch. unfold mbind at 1, M_bind at 1.
  destruct (getProcessInfo_run env attempt s) as [info ->].
  assert (Hgive_up : forall s0,
    connection s0 = connection s -> status_requests s0 = status_requests s ->
    exists turn s',
      (backoff attempt maxRetries;; mret Continue) s0 = (Returned turn, s') /\
      status_requests s' = status_requests s /\
      match turn with
      | Continue => connection s' = connection s
      | Return b => b = true /\ is_Some (connection s')
      end).
  { intros s0 Hc Hr. unfold mbind, M_bind, mret, M_ret.
    destruct (backoff_run attempt maxRetries s0) as (s1 & -> & Hc1 & Hr1).
    exists Continue, s1. split_and!; [done|congruence..]. }
  destruct info as [info|].
  2:{ destruct (Hgive_up s eq_refl eq_refl) as (turn & s' & -> & ?). eauto. }
  destruct (String.eqb (csrfToken info) "").
  { destruct (Hgive_up s eq_refl eq_refl) as (turn & s' & -> & ?). eauto. }
  unfold mbind at 1, M_bind at 1.
  destruct (findApiPort_quiet env attempt (csrfToken info) s)
    as (found & s1 & -> & Hc1 & Hr1).
  destruct found as [p|].
  2:{ destruct (Hgive_up s1 Hc1 Hr1) as (turn & s' & -> & ?). eauto. }
  destruct (p =? 0).
  { destruct (Hgive_up s1 Hc1 Hr1) as (turn & s' & -> & ?). eauto. }
  unfold mbind, M_bind, mret, M_ret, set_connection. simpl.
  eexists _, _. split; [reflexivity|]. split; [|by eauto].
  rewrite <- Hr1. by destruct s1.
Qed.

Lemma connectLoop_run env (remaining attempt maxRetries : nat) (s : Fetcher) :
  exists (b : bool) s',
    connectLoop env remaining attempt maxRetries s = (Returned b, s') /\
    status_requests s' = status_requests s /\
    if b then is_Some (connection s') else connection s' = connection s.
Proof.
  revert attempt s. induction remaining as [|k IH]; intros attempt s.
  - by exists false, s.
  - cbn [connectLoop]. unfold mbind at 1, M_bind at 1.
    destruct (connectAttempt_run env attempt maxRetries s)
      as (turn & s1 & -> & Hr1 & Hturn).
    destruct turn as [|b].
    + destruct (IH (S attempt) s1) as (b & s2 & -> & Hr2 & Hb).
      exists b, s2. split_and!; [done|congruence|].
      destruct b; [done|congruence].
    + destruct Hturn as [-> Hc]. by exists true, s1.
Qed.

Lemma makeApiRequest_requests env (s s' : Fetcher)
    (o : Outcome (option StatusData)) :
  makeApiRequest env s = (o, s') ->
  (status_requests s' <= status_requests s + 1)%nat /\
  connection s' = connection s.
Proof.
  unfold makeApiRequest, get_connection. unfold mbind at 1, M_bind at 1.
  destruct (connection s) as [conn|] eqn:Hconn.
  - unfold mbind, M_bind, emit, throw, mret, M_ret.
    assert (Hcount :
      status_requests {| connection := connection s;
                         trace := trace s ++ [StatusRequest (port conn)] |}
      = (status_requests s + 1)%nat).
    { unfold status_requests. simpl. by rewrite List.filter_app, length_app. }
    destruct (userStatusReply env conn) as [msg| |code body];
      [| |destruct (negb (code =? 200)); [|destruct (JSON_parse env body)]];
      intros [= <- <-]; rewrite Hcount; simpl; split; (lia || done).
  - unfold throw. intros [= <- <-]. split; [lia|done].
Qed.

(** The body of the [try] block of [fetch], seen through the request and
    the parse alone. *)
Lemma try_body env now (s : Fetcher) :
  (response ← makeApiRequest env;
   parsed ← lift (parseResponse env now response);
   mret (Some parsed)) s =
  match (makeApiRequest env ≫=
         fun response => lift (parseResponse env now response)) s with
  | (Returned parsed, s') => (Returned (Some parsed), s')
  | (Thrown message, s') => (Thrown message, s')
  end.
Proof.
  unfold mbind, M_bind, mret, M_ret, lift.
  destruct (makeApiRequest env s) as [[response|message] s']; [|done].
  by destruct (parseResponse env now response).
Qed.

Lemma request_and_parse_requests env now (s s' : Fetcher)
    (o : Outcome RawQuotaResponse) :
  (makeApiRequest env ≫=
   fun response => lift (parseResponse env now response)) s = (o, s') ->
  (status_requests s' <= status_requests s + 1)%nat /\
  connection s' = connection s.
Proof.
  unfold mbind, M_bind, lift.
  destruct (makeApiRequest env s) as [[response|message] s1] eqn:Hreq;
    intros [= <- <-]; by apply makeApiRequest_requests in Hreq.
Qed.

(** [fetch] once the connection question is settled: on the state [s1]
    at the entry of the [try] block. *)
Lemma fetch_try env now (s1 : Fetcher) :
  exists r s',
    try_catch
      (response ← makeApiRequest env;
       parsed ← lift (parseResponse env now response);
       mret (Some parsed))
      (fun _ => set_connection None;; mret None) s1 = (Returned r, s') /\
    (status_requests s' <= status_requests s1 + 1)%nat /\
    (forall message s2,
        (makeApiRequest env ≫=
         fun response => lift (parseResponse env now response)) s1
        = (Thrown message, s2) ->
        r = None /\ s' = {| connection := None; trace := trace s2 |}) /\
    (forall parsed s2,
        (makeApiRequest env ≫=
         fun response => lift (parseResponse env now response)) s1
        = (Returned parsed, s2) ->
        r = Some parsed /\ s' = s2 /\ connection s' = connection s1).
Proof.
  unfold try_catch. rewrite try_body.
  destruct ((makeApiRequest env ≫=
             fun response => lift (parseResponse env now response)) s1)
    as [[parsed|message] s2] eqn:Hbody.
  - apply request_and_parse_requests in Hbody as [Hcount Hconn].
    exists (Some parsed), s2. split_and!; [done..| |].
    + intros ?? [=].
    + by intros ?? [= <- <-].
  - apply request_and_parse_requests in Hbody as [Hcount Hconn].
    exists None, {| connection := None; trace := trace s2 |}.
    split_and!; [done|by destruct s2| |].
    + by intros ?? [= <- <-].
    + intros ?? [=].
Qed.

Lemma status_failure_dec env now (conn : ConnectionParams) :
  status_failure env now conn \/ ~ status_failure env now conn.
Proof.
  unfold status_failure.
  destruct (userStatusReply env conn) as [msg| |code body]; [by left..|].
  destruct (Z.eq_dec code 200) as [->|Hcode]; [|by left; left].
  destruct (JSON_parse env body) as [data|]; [|by left; right].
  destruct (parseResponse env now data) as [parsed|message].
  - right. intros [?|[? [=]]]. done.
  - left. right. by eexists.
Qed.

(** What the request and the parse come to on a stored connection: one
    status request is sent; they throw on a transport or parse error and
    return the parsed snapshot otherwise. *)
Lemma request_and_parse_cases env now (s1 : Fetcher) (conn : ConnectionParams) :
  connection s1 = Some conn ->
  let s2 := {| connection := Some conn;
               trace := trace s1 ++ [StatusRequest (port conn)] |} in
  (status_failure env now conn ->
   exists message,
     (makeApiRequest env ≫=
      fun response => lift (parseResponse env now response)) s1
     = (Thrown message, s2)) /\
  (~ status_failure env now conn ->
   exists parsed,
     (makeApiRequest env ≫=
      fun response => lift (parseResponse env now response)) s1
     = (Returned parsed, s2)).
Proof.
  intros Hconn s2. unfold status_failure, makeApiRequest, get_connection.
  unfold mbind, M_bind, emit, throw, mret, M_ret, lift. rewrite Hconn. simpl.
  rewrite Hconn. fold s2.
  destruct (userStatusReply env conn) as [msg| |code body].
  - split; [by eexists|tauto].
  - split; [by eexists|tauto].
  - destruct (Z.eqb_spec code 200) as [->|Hcode]; simpl.
    + destruct (JSON_parse env body) as [data|].
      * destruct (parseResponse env now data) as [parsed|message].
        -- split; [|by eexists]. intros [?|[? [=]]]. done.
        -- split; [by eexists|]. intros Hno. destruct Hno. right. by eexists.
      * split; [by eexists|tauto].
    + split; [by eexists|tauto].
Qed.

(** C5. [fetch] always returns: no run of it ends in a throw. With no
    connection cached it runs discovery first, and returns null, with no
    status request sent, when discovery fails. Otherwise one status
    request is sent on the connection, cached or just discovered: on a
    transport or parse error the cached connection is cleared and null is
    returned, nothing being sent again; else the parsed snapshot is
    returned and the connection kept. At most one status request is sent
    per call. *)
Theorem fetch_never_throws (env : Env) (now : Z) (s : Fetcher) :
  exists (r : option RawQuotaResponse) (s' : Fetcher),
    fetch env now s = (Returned r, s') /\
    (exists (connected : bool) (s1 : Fetcher),
        (match connection s with
         | None => connect env 3 s = (Returned connected, s1)
         | Some _ => connected = true /\ s1 = s
         end) /\
        (connected = false ->
         r = None /\ s' = s1 /\ status_requests s' = status_requests s) /\
        (connected = true ->
         exists conn,
           connection s1 = Some conn /\
           trace s' = trace s1 ++ [StatusRequest (port conn)] /\
           (status_failure env now conn -> r = None /\ connection s' = None) /\
           (~ status_failure env now conn ->
            is_Some r /\ connection s' = Some conn))) /\
    (status_requests s' <= status_requests s + 1)%nat.
Proof.
  assert (Htry : forall s1 conn,
    connection s1 = Some conn ->
    exists r s',
      try_catch
        (response ← makeApiRequest env;
         parsed ← lift (parseResponse env now response);
         mret (Some parsed))
        (fun _ => set_connection None;; mret None) s1 = (Returned r, s') /\
      (status_requests s' <= status_requests s1 + 1)%nat /\
      trace s' = trace s1 ++ [StatusRequest (port conn)] /\
      (status_failure env now conn -> r = None /\ connection s' = None) /\
      (~ status_failure env now conn -> is_Some r /\ connection s' = Some conn)).
  { intros s1 conn Hconn.
    destruct (fetch_try env now s1) as (r & s' & Hrun & Hcount & Herr & Hok).
    destruct (request_and_parse_cases env now s1 conn Hconn) as [Hfail Hfine].
    exists r, s'. split_and!; [done..| | |].
    - destruct (status_failure_dec env now conn) as [Hf|Hf].
      + destruct (Hfail Hf) as [message Hbody].
        by destruct (Herr _ _ Hbody) as [-> ->].
      + destruct (Hfine Hf) as [parsed Hbody].
        by destruct (Hok _ _ Hbody) as (-> & -> & _).
    - intros Hf. destruct (Hfail Hf) as [message Hbody].
      by destruct (Herr _ _ Hbody) as [-> ->].
    - intros Hf. destruct (Hfine Hf) as [parsed Hbody].
      destruct (Hok _ _ Hbody) as (-> & -> & _). by split; [eexists|]. }
  unfold fetch, get_connection. unfold mbind at 1, M_bind at 1.
  destruct (connection s) as [conn|] eqn:Hconn.
  - unfold mbind at 1, M_bind at 1, mret at 1, M_ret at 1. cbn [negb].
    destruct (Htry s conn Hconn) as (r & s' & -> & Hcount & Htrace & Herr & Hok).
    exists r, s'. split; [done|]. split; [|done].
    exists true, s. split_and!; [done..|discriminate|].
    intros _. by exists conn.
  - unfold mbind at 1, M_bind at 1. unfold connect.
    destruct (connectLoop_run env 3 1 3 s) as (connected & s1 & -> & Hr1 & Hc1).
    destruct connected; cbn [negb].
    + destruct Hc1 as [conn Hc1].
      destruct (Htry s1 conn Hc1) as (r & s' & -> & Hcount & Htrace & Herr & Hok).
      exists r, s'. split; [done|]. split; [|lia].
      exists true, s1. split_and!; [done|discriminate|].
      intros _. by exists conn.
    + exists None, s1. split; [done|]. split; [|lia].
      exists false, s1. split_and!; [done|done|discriminate].
Qed.

End QuotaFetcherSpec.

(** ** InsightsEngine: session tracking, history, predictions, health *)

Module InsightsEngineFacts.
Import Js Types InsightsEngine Spec JsFacts InsightsEngineSpec.

(** *** One pass over the models *)

Lemma analyzeModel_baselines now e m all pinned :
  sessionStartQuotas (analyzeModel now e m all pinned).2 = sessionStartQuotas e.
Proof. unfold analyzeModel. simpl. by destruct (detectActiveModel e m all). Qed.

Lemma analyzeModel_storage now e m all pinned :
  globalState (analyzeModel now e m all pinned).2 = globalState e.
Proof. unfold analyzeModel. simpl. by destruct (detectActiveModel e m all). Qed.

(** Every enriched model comes from [analyzeModel] on an engine that has
    the history, the baselines and the storage the pass started with. *)
Lemma analyzeEach_each now e todo all pinned :
  (history (analyzeEach now e todo all pinned).2 = history e /\
   sessionStartQuotas (analyzeEach now e todo all pinned).2 = sessionStartQuotas e /\
   globalState (analyzeEach now e todo all pinned).2 = globalState e) /\
  Forall2
    (fun m em =>
       exists ei, history ei = history e /\
                  sessionStartQuotas ei = sessionStartQuotas e /\
                  em = (analyzeModel now ei m all pinned).1)
    todo (analyzeEach now e todo all pinned).1.
Proof.
  revert e. induction todo as [|m rest IH]; intros e; cbn [analyzeEach].
  { split; [done|constructor]. }
  pose proof (analyzeModel_history now e m all pinned) as Hh.
  pose proof (analyzeModel_baselines now e m all pinned) as Hq.
  pose proof (analyzeModel_storage now e m all pinned) as Hg.
  destruct (analyzeModel now e m all pinned) as [em e1] eqn:Hm.
  specialize (IH e1).
  destruct (analyzeEach now e1 rest all pinned) as [ems e2].
  cbn [fst snd] in *. destruct IH as [(H1 & H2 & H3) IH].
  rewrite Hh in H1. rewrite Hq in H2. rewrite Hg in H3.
  split; [done|]. constructor.
  - exists e. by rewrite Hm.
  - eapply Forall2_impl; [exact IH|].
    intros m' em' (ei & ? & ? & ?). exists ei. split_and!; congruence.
Qed.

(** The engine [analyze] hands to the pass over the models. *)
Lemma analyze_each now e ms config :
  Forall2
    (fun m em =>
       exists ei, history ei = history e ++ [snapshot now ms] /\
                  sessionStartQuotas ei
                    = sessionStartQuotas (initSessionTracking ms e) /\
                  em = (analyzeModel now ei m ms (pinnedModels config)).1)
    ms (enriched now e ms config).
Proof.
  unfold enriched.
  destruct (analyzeEach_each now
              (initSessionTracking ms (recordHistory now ms e)) ms ms
              (pinnedModels config)) as [_ H].
  exact H.
Qed.

Lemma analyze_engine now e ms config :
  history (analyze now e ms config).2 = history e ++ [snapshot now ms] /\
  sessionStartQuotas (analyze now e ms config).2
    = sessionStartQuotas (initSessionTracking ms e) /\
  globalState (analyze now e ms config).2
    = globalState (recordHistory now ms e).
Proof.
  unfold analyze.
  destruct (analyzeEach_each now
              (initSessionTracking ms (recordHistory now ms e)) ms ms
              (pinnedModels config)) as [(H1 & H2 & H3) _].
  by destruct (analyzeEach _ _ _ _ _) as [ems e3].
Qed.

Lemma Forall2_Forall_right {A B} (R : A -> B -> Prop) (P : B -> Prop)
    (l : list A) (k : list B) :
  Forall2 R l k -> (forall x y, x ∈ l -> R x y -> P y) -> Forall P k.
Proof.
  induction 1 as [|x y l k Hxy _ IH]; intros HP; constructor.
  - apply (HP x); [apply list_elem_of_here|done].
  - apply IH. intros x' y' Hx'. apply HP. by apply list_elem_of_further.
Qed.

(** What holds of [analyzeModel] on every such engine holds of every model
    of the sorted result. *)
Lemma analyze_result_each now e ms config (P : EnrichedModel -> Prop) :
  (forall m ei,
      m ∈ ms ->
      history ei = history e ++ [snapshot now ms] ->
      sessionStartQuotas ei = sessionStartQuotas (initSessionTracking ms e) ->
      P (analyzeModel now ei m ms (pinnedModels config)).1) ->
  Forall P (analyze now e ms config).1.1.
Proof.
  intros HP. rewrite analyze_perm.
  eapply Forall2_Forall_right; [apply analyze_each|].
  intros m em Hm (ei & Hh & Hq & ->). by apply HP.
Qed.

(** *** Session baselines *)

Lemma baselines_fold (q : gmap string Z) (ms : list ModelQuota) (id : string) :
  foldl (fun q m =>
           match q !! modelId m with
           | Some _ => q
           | None => <[modelId m := remainingPercent m]> q
           end) q ms !! id =
  match q !! id with
  | Some v => Some v
  | None => remainingPercent <$> head (filter (fun m => modelId m = id) ms)
  end.
Proof.
  revert q. induction ms as [|m rest IH]; intros q; simpl.
  { by destruct (q !! id). }
  rewrite IH. destruct (decide (modelId m = id)) as [Heq|Hne].
  - rewrite filter_cons_True by done. simpl. subst id.
    destruct (q !! modelId m) as [v|] eqn:Hq; [by rewrite Hq|].
    by rewrite lookup_insert_eq.
  - rewrite filter_cons_False by done.
    destruct (q !! modelId m) as [v|] eqn:Hq; [done|].
    by rewrite lookup_insert_ne.
Qed.

(** X1. The session baseline of a model is the percentage it had the
    first time an analysis saw it: an analysis leaves every baseline
    already recorded as it is, and records for an id it had not seen the
    percentage of the first model of the list that carries the id. *)
Theorem baseline_is_first_seen (now : Z) (e : Engine) (ms : list ModelQuota)
    (config : QuotaConfig) (id : string) :
  sessionStartQuotas (analyze now e ms config).2 !! id =
  match sessionStartQuotas e !! id with
  | Some baseline => Some baseline
  | None => remainingPercent <$> head (filter (fun m => modelId m = id) ms)
  end.
Proof.
  destruct (analyze_engine now e ms config) as (_ & -> & _).
  apply baselines_fold.
Qed.

(** X2. The session usage reported for a model is max(0, baseline -
    remainingPercent) against the baseline the engine holds after the
    analysis, so it is never negative, and a rise above the baseline
    counts as no usage. *)
Theorem session_usage_against_baseline (now : Z) (e : Engine)
    (ms : list ModelQuota) (config : QuotaConfig) :
  Forall (fun em : EnrichedModel =>
            0 <= sessionUsage (insights em) /\
            exists baseline,
              sessionStartQuotas (analyze now e ms config).2 !! modelId em
                = Some baseline /\
              sessionUsage (insights em)
                = Z.max 0 (baseline - remainingPercent em) /\
              (baseline <= remainingPercent em ->
               sessionUsage (insights em) = 0))
         (analyze now e ms config).1.1.
Proof.
  destruct (analyze_engine now e ms config) as (_ & Hq & _).
  apply analyze_result_each. intros m ei Hm _ Hqi.
  unfold analyzeModel, calculateSessionUsage. simpl. rewrite Hq, Hqi.
  assert (Hsome : is_Some (sessionStartQuotas (initSessionTracking ms e)
                           !! modelId m)).
  { unfold initSessionTracking. simpl. rewrite baselines_fold.
    destruct (sessionStartQuotas e !! modelId m); [by eexists|].
    apply list_elem_of_lookup in Hm as [i Hi].
    destruct (filter (fun m0 => modelId m0 = modelId m) ms) as [|x l] eqn:Hf.
    - assert (Hin : m ∈ filter (fun m0 => modelId m0 = modelId m) ms).
      { apply list_elem_of_filter. split; [done|].
        by eapply list_elem_of_lookup_2. }
      rewrite Hf in Hin. by apply elem_of_nil in Hin.
    - by eexists. }
  destruct Hsome as [b Hb]. rewrite Hb. split; [lia|].
  exists b. split_and!; [done..|lia].
Qed.

(** *** History *)

Lemma snapshot_fold (acc : gmap string Z) (ms : list ModelQuota) (id : string) :
  foldl (fun acc m => <[modelId m := remainingPercent m]> acc) acc ms !! id =
  match last (filter (fun m => modelId m = id) ms) with
  | Some m => Some (remainingPercent m)
  | None => acc !! id
  end.
Proof.
  revert acc. induction ms as [|m rest IH]; intros acc; simpl; [done|].
  rewrite IH. destruct (decide (modelId m = id)) as [Heq|Hne].
  - rewrite filter_cons_True by done.
    destruct (filter (fun m0 => modelId m0 = id) rest) as [|x l] eqn:Hf.
    + simpl. subst id. by rewrite lookup_insert_eq.
    + change (last (m :: x :: l)) with (last (x :: l)).
      destruct (last (x :: l)) eqn:Hl; [done|].
      by apply last_None in Hl.
  - rewrite filter_cons_False by done.
    destruct (last _); [done|]. by rewrite lookup_insert_ne.
Qed.

(** X3. A snapshot maps every model id of the poll to that model's
    remaining percentage, the last one when the id repeats, and holds no
    other id. *)
Theorem snapshot_holds_current_percentages (now : Z) (ms : list ModelQuota)
    (id : string) :
  timestamp (snapshot now ms) = now /\
  models (snapshot now ms) !! id =
    remainingPercent <$> last (filter (fun m => modelId m = id) ms) /\
  (is_Some (models (snapshot now ms) !! id) <->
   exists m, m ∈ ms /\ modelId m = id).
Proof.
  assert (Hl : models (snapshot now ms) !! id =
               remainingPercent <$> last (filter (fun m => modelId m = id) ms)).
  { unfold snapshot. simpl. rewrite snapshot_fold.
    by destruct (last _). }
  split_and!; [done..|]. rewrite Hl, fmap_is_Some. split.
  - intros [m Hm]. exists m. apply last_Some_elem_of in Hm.
    apply list_elem_of_filter in Hm. tauto.
  - intros (m & Hm & Hid).
    destruct (filter (fun m0 => modelId m0 = id) ms) as [|x l] eqn:Hf.
    + assert (Hin : m ∈ filter (fun m0 => modelId m0 = id) ms)
        by by apply list_elem_of_filter.
      rewrite Hf in Hin. by apply elem_of_nil in Hin.
    + rewrite <- Hf. apply last_is_Some. by rewrite Hf.
Qed.

Lemma slice_last_last {A} (n : nat) (l : list A) :
  (0 < n)%nat -> last (slice_last n l) = last l.
Proof.
  intros Hn. unfold slice_last.
  destruct l as [|x l] using rev_ind; [done|].
  rewrite length_app. simpl.
  rewrite drop_app_le by lia. by rewrite !last_snoc.
Qed.

(** X4. An analysis appends exactly one entry, the snapshot of the poll,
    to the in-memory history and drops nothing from it, however long or
    old it is; the copy it persists ends with that snapshot, holds at most
    200 entries and only entries of the last 24 hours. *)
Theorem analysis_appends_one_entry (now : Z) (e : Engine) (ms : list ModelQuota)
    (config : QuotaConfig) :
  history (analyze now e ms config).2 = history e ++ [snapshot now ms] /\
  exists stored,
    globalState (analyze now e ms config).2 !! STORAGE_KEY = Some stored /\
    last stored = Some (snapshot now ms) /\
    (length stored <= 200)%nat /\
    Forall (fun x => now - 24 * 60 * 60 * 1000 < timestamp x) stored.
Proof.
  destruct (analyze_engine now e ms config) as (Hh & _ & Hg).
  split; [done|]. rewrite Hg. unfold recordHistory, saveHistory. simpl.
  eexists. split; [by rewrite lookup_insert_eq|].
  set (fresh := filter (newer_than (cutoff now)) _). split_and!.
  - rewrite slice_last_last by (unfold MAX_HISTORY_POINTS; lia).
    unfold fresh. rewrite filter_app.
    rewrite (filter_cons_True _ (snapshot now ms)).
    + by rewrite filter_nil, last_snoc.
    + unfold newer_than, cutoff, MAX_HISTORY_HOURS. simpl. lia.
  - rewrite slice_last_length. unfold MAX_HISTORY_POINTS. lia.
  - apply Forall_forall. intros x Hx.
    assert (Hin : x ∈ fresh).
    { eapply elem_of_sublist; [exact Hx|]. apply sublist_drop. }
    by apply list_elem_of_filter in Hin as [? _].
Qed.

(** *** Predictions *)

Lemma formatPrediction_shape (hours : Q) :
  (exists rest, formatPrediction hours = "~" +:+ rest) \/
  formatPrediction hours = "<1m".
Proof.
  unfold formatPrediction.
  repeat match goal with
         | |- context [if ?c then _ else _] => destruct c
         end; eauto.
Qed.

Lemma formatPrediction_not_status (hours : Q) :
  formatPrediction hours <> "Exhausted" /\
  formatPrediction hours <> "Safe for now".
Proof.
  destruct (formatPrediction_shape hours) as [[rest ->]| ->]; by split.
Qed.

Lemma TimeClip_ge (x : Q) (z : Z) : (inject_Z z <= x)%Q -> z <= TimeClip x.
Proof.
  intros Hle. unfold TimeClip. destruct (Qle_bool 0 x).
  - rewrite <- (Qfloor_Z z). by apply Qfloor_resp_le.
  - rewrite <- (Qceiling_Z z). by apply Qceiling_resp_le.
Qed.

Lemma burning_test (rate : Q) (percent : Z) :
  negb (Qle_bool rate 0) && (0 <? percent) = true <->
  (0 < rate)%Q /\ 0 < percent.
Proof.
  rewrite andb_true_iff, negb_true_iff, Z.ltb_lt.
  split; intros [Hr Hp]; (split; [|done]).
  - apply Qnot_le_lt. intros Hle. apply Qle_bool_iff in Hle. congruence.
  - destruct (Qle_bool rate 0) eqn:Hle; [|done].
    apply Qle_bool_iff in Hle. exfalso. by apply (Qlt_not_le _ _ Hr).
Qed.

(** X5. A time of exhaustion is predicted exactly for the models that are
    losing quota and have some left (burn rate above 0 and remaining
    percentage above 0), and the predicted time is never before the time
    of the analysis; a prediction label is always present. *)
Theorem prediction_is_never_in_the_past (now : Z) (e : Engine)
    (ms : list ModelQuota) (config : QuotaConfig) :
  Forall (fun em : EnrichedModel =>
            (burning em ->
             exists t, predictedExhaustion (insights em) = Some t /\ now <= t) /\
            (~ burning em -> predictedExhaustion (insights em) = None) /\
            is_Some (predictedExhaustionLabel (insights em)))
         (analyze now e ms config).1.1.
Proof.
  apply analyze_result_each. intros m ei _ _ _.
  unfold burning, analyzeModel. cbn [fst insights quota burnRate
    predictedExhaustion predictedExhaustionLabel].
  set (rate := calculateBurnRate (history ei) (modelId m)).
  pose proof (burning_test rate (remainingPercent m)) as Htest.
  destruct (negb (Qle_bool rate 0) && (0 <? remainingPercent m)) eqn:Hc.
  - destruct Htest as [Htest _]. destruct (Htest eq_refl) as [Hr Hp].
    cbn [fst snd]. split_and!; [|tauto|by eexists].
    intros _. eexists. split; [done|]. apply TimeClip_ge.
    assert (Hh : (0 <= inject_Z (remainingPercent m) / rate)%Q).
    { apply Qle_shift_div_l; [done|]. rewrite Qmult_0_l.
      change 0%Q with (inject_Z 0). rewrite <- Zle_Qle. lia. }
    assert (H1 : (0 <= inject_Z (remainingPercent m) / rate * 60)%Q)
      by (apply Qmult_le_0_compat; [done|discriminate]).
    assert (H2 : (0 <= inject_Z (remainingPercent m) / rate * 60 * 60)%Q)
      by (apply Qmult_le_0_compat; [done|discriminate]).
    assert (H3 : (0 <= inject_Z (remainingPercent m) / rate * 60 * 60 * 1000)%Q)
      by (apply Qmult_le_0_compat; [done|discriminate]).
    rewrite <- (Qplus_0_r (inject_Z now)) at 1.
    apply Qplus_le_compat; [apply Qle_refl|exact H3].
  - assert (Hnot : ~ ((0 < rate)%Q /\ 0 < remainingPercent m)).
    { intros H. apply Htest in H. discriminate. }
    destruct (isExhausted m); cbn [fst snd];
      (split_and!; [tauto|done|by eexists]).
Qed.

(** X6. The label "Exhausted" is given exactly to the models flagged
    exhausted for which no exhaustion time is predicted, and "Safe for
    now" exactly to the models not flagged exhausted for which none is
    predicted; so a model flagged exhausted at 0 % always reads
    "Exhausted". *)
Theorem exhausted_and_safe_labels (now : Z) (e : Engine)
    (ms : list ModelQuota) (config : QuotaConfig) :
  Forall (fun em : EnrichedModel =>
            (predictedExhaustionLabel (insights em) = Some "Exhausted" <->
             ~ burning em /\ isExhausted em = true) /\
            (predictedExhaustionLabel (insights em) = Some "Safe for now" <->
             ~ burning em /\ isExhausted em = false) /\
            (isExhausted em = true -> remainingPercent em <= 0 ->
             predictedExhaustionLabel (insights em) = Some "Exhausted"))
         (analyze now e ms config).1.1.
Proof.
  apply analyze_result_each. intros m ei _ _ _.
  unfold burning, analyzeModel. cbn [fst insights quota burnRate
    predictedExhaustion predictedExhaustionLabel].
  set (rate := calculateBurnRate (history ei) (modelId m)).
  pose proof (burning_test rate (remainingPercent m)) as Htest.
  destruct (negb (Qle_bool rate 0) && (0 <? remainingPercent m)) eqn:Hc.
  - destruct Htest as [Htest _]. destruct (Htest eq_refl) as [Hr Hp].
    cbn [fst snd].
    destruct (formatPrediction_not_status (inject_Z (remainingPercent m) / rate))
      as [Hne1 Hne2].
    split_and!.
    + split; [intros [= H]; by destruct Hne1|tauto].
    + split; [intros [= H]; by destruct Hne2|tauto].
    + intros _ Hle. lia.
  - assert (Hnot : ~ ((0 < rate)%Q /\ 0 < remainingPercent m)).
    { intros H. apply Htest in H. discriminate. }
    destruct (isExhausted m); cbn [fst snd]; split_and!;
      try done; split; try done; try tauto; intros [_ [=]].
Qed.

(** X7. With no entry in the in-memory history before it (a new engine
    with nothing stored, or the first analysis after the history was
    cleared), an analysis reports for every model a burn rate of 0 with
    the label "Minimal", predicts no exhaustion time, labels the model
    "Exhausted" or "Safe for now" by its exhausted flag, and draws a
    sparkline of one point. *)
Theorem first_analysis_reports_no_burn (now : Z) (e : Engine)
    (ms : list ModelQuota) (config : QuotaConfig) :
  history e = [] ->
  Forall (fun em : EnrichedModel =>
            burnRate (insights em) = 0%Q /\
            burnRateLabel (insights em) = "Minimal" /\
            predictedExhaustion (insights em) = None /\
            predictedExhaustionLabel (insights em)
              = Some (if isExhausted em then "Exhausted" else "Safe for now") /\
            length (historyData (insights em)) = 1%nat)
         (analyze now e ms config).1.1.
Proof.
  intros He. apply analyze_result_each. intros m ei _ Hh _.
  rewrite He in Hh. simpl in Hh.
  unfold analyzeModel, getHistoryData. cbn [fst insights quota burnRate
    burnRateLabel predictedExhaustion predictedExhaustionLabel historyData].
  rewrite Hh.
  change (calculateBurnRate [snapshot now ms] (modelId m)) with 0%Q.
  cbn [Qle_bool negb andb]. split_and!; try done.
  all: by destruct (isExhausted m).
Qed.

Lemma first_analysis_reports_no_burn_witness :
  let ms := [ {| modelId := "A"; label := "Alpha"; remainingPercent := 40;
                 isExhausted := false; resetTime := None;
                 timeUntilReset := None |};
              {| modelId := "B"; label := "Beta"; remainingPercent := 0;
                 isExhausted := true; resetTime := None;
                 timeUntilReset := None |} ] in
  let config := {| warningThreshold := 25; refreshInterval := 60;
                   pinnedModels := []; displayStyle := percentage |} in
  Forall (fun em : EnrichedModel =>
            burnRate (insights em) = 0%Q /\
            burnRateLabel (insights em) = "Minimal" /\
            predictedExhaustion (insights em) = None /\
            predictedExhaustionLabel (insights em)
              = Some (if isExhausted em then "Exhausted" else "Safe for now") /\
            length (historyData (insights em)) = 1%nat)
         (analyze 1000 (InsightsEngine.new ∅ 1000) ms config).1.1.
Proof.
  intros ms config.
  apply (first_analysis_reports_no_burn 1000 (InsightsEngine.new ∅ 1000) ms config).
  reflexivity.
Defined.

(** *** Health *)

Lemma health_fold (ems : list EnrichedModel) (tw ws : Z) :
  foldl (fun '(tw, ws) (m : EnrichedModel) =>
           let weight := if isActive (insights m) then 3 else 1 in
           (tw + weight, ws + remainingPercent m * weight))
        (tw, ws) ems
  = (tw + total_weight ems, ws + weighted_sum ems).
Proof.
  revert tw ws. induction ems as [|em rest IH]; intros tw ws; simpl.
  { f_equal; lia. }
  rewrite IH. unfold weight. f_equal; lia.
Qed.

Lemma calculateHealth_nonempty (ems : list EnrichedModel) :
  ems <> [] ->
  calculateHealth ems =
  let sc := Math_round (inject_Z (weighted_sum ems) / inject_Z (total_weight ems)) in
  {| score := sc; level := (getHealthLevel sc).1;
     health_label := (getHealthLevel sc).2 |}.
Proof.
  destruct ems as [|em rest]; [done|]. intros _.
  unfold calculateHealth. rewrite health_fold.
  rewrite !Z.add_0_l. cbv zeta. by destruct (getHealthLevel _).
Qed.

Lemma total_weight_pos (ems : list EnrichedModel) :
  ems <> [] -> 0 < total_weight ems.
Proof.
  assert (Hnn : forall l, 0 <= total_weight l).
  { induction l as [|x l IH]; simpl; [lia|]. unfold weight.
    destruct (isActive (insights x)); lia. }
  destruct ems as [|em rest]; [done|]. intros _. simpl.
  specialize (Hnn rest). unfold weight. destruct (isActive (insights em)); lia.
Qed.

Lemma weighted_sum_bounds (ems : list EnrichedModel) (lo hi : Z) :
  Forall (fun em : EnrichedModel => lo <= remainingPercent em <= hi) ems ->
  lo * total_weight ems <= weighted_sum ems <= hi * total_weight ems.
Proof.
  induction 1 as [|em rest Hem _ IH]; simpl; [lia|].
  unfold weight. destruct (isActive (insights em)); lia.
Qed.

Lemma calculateHealth_bounds (ems : list EnrichedModel) (lo hi : Z) :
  ems <> [] ->
  Forall (fun em : EnrichedModel => lo <= remainingPercent em <= hi) ems ->
  lo <= score (calculateHealth ems) <= hi.
Proof.
  intros Hne Hall. rewrite calculateHealth_nonempty by done. cbn [score].
  pose proof (total_weight_pos ems Hne) as Hpos.
  pose proof (weighted_sum_bounds ems lo hi Hall) as [Hlo Hhi].
  assert (Hq : (0 < inject_Z (total_weight ems))%Q).
  { change 0%Q with (inject_Z 0). by rewrite <- Zlt_Qlt. }
  apply Math_round_between.
  - apply Qle_shift_div_l; [done|].
    rewrite <- inject_Z_mult, <- Zle_Qle. lia.
  - apply Qle_shift_div_r; [done|].
    rewrite <- inject_Z_mult, <- Zle_Qle. lia.
Qed.

Lemma weights_permutation (ems ems' : list EnrichedModel) :
  ems ≡ₚ ems' ->
  total_weight ems = total_weight ems' /\ weighted_sum ems = weighted_sum ems'.
Proof.
  induction 1 as [|x l l' _ [IH1 IH2]|x y l|l l' l'' _ [IH1 IH2] _ [IH3 IH4]];
    simpl; split; lia.
Qed.

Lemma calculateHealth_permutation (ems ems' : list EnrichedModel) :
  ems ≡ₚ ems' -> calculateHealth ems = calculateHealth ems'.
Proof.
  intros Hperm. destruct ems as [|em rest].
  { by apply Permutation_nil_l in Hperm as <-. }
  assert (Hne' : ems' <> []).
  { intros ->. by apply Permutation_nil_r in Hperm. }
  rewrite !calculateHealth_nonempty by done.
  by destruct (weights_permutation _ _ Hperm) as [-> ->].
Qed.

(** X8. The health score lies between the lowest and the highest
    remaining percentage of the models it is computed from; when the poll
    reports percentages between 0 and 100, the score of the analysis lies
    between 0 and 100. *)
Theorem health_score_within_percentages (now : Z) (e : Engine)
    (ms : list ModelQuota) (config : QuotaConfig) (lo hi : Z) :
  ms <> [] ->
  (forall m, m ∈ ms -> lo <= remainingPercent m <= hi) ->
  lo <= score (analyze now e ms config).1.2 <= hi.
Proof.
  intros Hne Hall.
  assert (Hres : (analyze now e ms config).1.2
                 = calculateHealth (analyze now e ms config).1.1).
  { unfold analyze. by destruct (analyzeEach _ _ _ _ _). }
  rewrite Hres. apply calculateHealth_bounds.
  - intros Hnil.
    pose proof (analyze_perm now e ms config) as Hperm.
    rewrite Hnil in Hperm. apply Permutation_nil_l in Hperm.
    pose proof (enriched_quota now e ms config) as Hq.
    rewrite <- Hperm in Hq. by subst ms.
  - apply analyze_result_each. intros m ei Hm _ _.
    unfold analyzeModel. cbn [fst quota]. by apply Hall.
Qed.

Lemma health_score_within_percentages_witness :
  let ms := [ {| modelId := "A"; label := "Alpha"; remainingPercent := 100;
                 isExhausted := false; resetTime := None;
                 timeUntilReset := None |};
              {| modelId := "B"; label := "Beta"; remainingPercent := 0;
                 isExhausted := true; resetTime := None;
                 timeUntilReset := None |} ] in
  let config := {| warningThreshold := 25; refreshInterval := 60;
                   pinnedModels := []; displayStyle := percentage |} in
  0 <= score (analyze 1000 (InsightsEngine.new ∅ 1000) ms config).1.2 <= 100.
Proof.
  intros ms config.
  apply (health_score_within_percentages 1000 (InsightsEngine.new ∅ 1000)
           ms config 0 100).
  - discriminate.
  - intros m Hm. unfold ms in Hm.
    apply elem_of_cons in Hm as [->|Hm]; [simpl; lia|].
    apply list_elem_of_singleton in Hm as ->. simpl. lia.
Defined.

(** *** Pinned models *)

Lemma prefix_iff (p s : string) :
  String.prefix p s = true <-> exists post, s = p +:+ post.
Proof.
  revert s. induction p as [|c p IH]; intros s.
  - split; [by exists s|by destruct s].
  - destruct s as [|d s]; simpl; [split; [discriminate|by intros [? [=]]]|].
    destruct (Ascii.ascii_dec c d) as [->|Hne].
    + rewrite IH. split; intros [post Hpost]; exists post.
      * by subst s.
      * by injection Hpost.
    + split; [discriminate|]. intros [post Hpost]. by injection Hpost.
Qed.

Lemma includes_iff (s p : string) :
  includes s p = true <-> substring_of p s.
Proof.
  unfold substring_of. induction s as [|c s IH].
  - cbn [includes]. rewrite orb_false_r, prefix_iff. split.
    + intros [post ->]. by exists "", post.
    + intros (pre & post & Heq). destruct pre; [by exists post|discriminate].
  - cbn [includes]. rewrite orb_true_iff, prefix_iff, IH. split.
    + intros [[post ->]|(pre & post & ->)].
      * by exists "", post.
      * by exists (String c pre), post.
    + intros (pre & post & Heq). destruct pre as [|d pre].
      * left. by exists post.
      * right. injection Heq as -> ->. by exists pre, post.
Qed.

Lemma checkPinned_existsb (lbl : string) (pinned : list string) :
  checkPinned lbl pinned =
  existsb (fun pin => includes (toLowerCase lbl) (toLowerCase pin)) pinned.
Proof. by destruct pinned. Qed.

Lemma checkPinned_iff (lbl : string) (pinned : list string) :
  checkPinned lbl pinned = true <->
  exists pin, pin ∈ pinned /\ substring_of (toLowerCase pin) (toLowerCase lbl).
Proof.
  rewrite checkPinned_existsb, existsb_exists.
  split; intros (pin & Hin & Hsub); exists pin;
    (split; [by apply list_elem_of_In|by apply includes_iff]).
Qed.

(** X9. A model is pinned exactly when some configured pin, put in lower
    case, occurs as a contiguous substring of the model's label put in
    lower case; every model of an analysis carries that verdict on its own
    label. *)
Theorem pinned_when_a_pin_occurs_in_the_label (now : Z) (e : Engine)
    (ms : list ModelQuota) (config : QuotaConfig) (lbl : string)
    (pinned : list string) :
  (checkPinned lbl pinned = true <->
   exists pin, pin ∈ pinned /\
               substring_of (toLowerCase pin) (toLowerCase lbl)) /\
  Forall (fun em : EnrichedModel =>
            isPinned (insights em) = checkPinned (label em) (pinnedModels config))
         (analyze now e ms config).1.1.
Proof.
  split; [apply checkPinned_iff|].
  by apply analyze_result_each.
Qed.

Lemma existsb_lower (x : string) (pins : list string) :
  existsb (fun pin => includes x (toLowerCase pin)) pins =
  existsb (fun pin => includes x pin) (toLowerCase <$> pins).
Proof. induction pins as [|p r IH]; simpl; [done|]. by rewrite IH. Qed.

(** X10. Pinning ignores the case of ASCII letters: two labels that are
    equal in lower case get the same verdict from two pin lists that are
    equal in lower case. *)
Theorem pinning_ignores_case (lbl lbl' : string) (pinned pinned' : list string) :
  toLowerCase lbl = toLowerCase lbl' ->
  toLowerCase <$> pinned = toLowerCase <$> pinned' ->
  checkPinned lbl pinned = checkPinned lbl' pinned'.
Proof.
  intros Hl Hp. rewrite !checkPinned_existsb, !existsb_lower.
  by rewrite Hl, Hp.
Qed.

Lemma pinning_ignores_case_witness :
  checkPinned "Claude Sonnet 4" ["sonnet"; "GPT"]
  = checkPinned "CLAUDE SONNET 4" ["SONNET"; "gpt"].
Proof.
  apply (pinning_ignores_case "Claude Sonnet 4" "CLAUDE SONNET 4"
           ["sonnet"; "GPT"] ["SONNET"; "gpt"]); reflexivity.
Defined.

(** X11. An empty string among the pins pins every model, whatever its
    label; with no pins configured no model is pinned. *)
Theorem empty_pin_pins_every_model (lbl : string) (pinned : list string) :
  "" ∈ pinned ->
  checkPinned lbl pinned = true /\ checkPinned lbl [] = false.
Proof.
  intros Hin. split; [|done]. apply checkPinned_iff. exists "".
  split; [done|]. by exists "", (toLowerCase lbl).
Qed.

Lemma empty_pin_pins_every_model_witness :
  checkPinned "Gemini Pro" ["claude"; ""] = true /\
  checkPinned "Gemini Pro" [] = false.
Proof.
  apply (empty_pin_pins_every_model "Gemini Pro" ["claude"; ""]).
  apply list_elem_of_further, list_elem_of_here.
Defined.

(** *** Active models *)

Lemma active_count_pos (ems : list EnrichedModel) (em : EnrichedModel) :
  em ∈ ems -> isActive (insights em) = true -> (1 <= active_count ems)%nat.
Proof.
  intros Hin Hact. unfold active_count.
  assert (Hf : In em (List.filter
                        (fun em : EnrichedModel => isActive (insights em)) ems)).
  { apply filter_In. split; [by apply list_elem_of_In|done]. }
  destruct (List.filter _ ems); [destruct Hf|simpl; lia].
Qed.

Lemma active_count_permutation (ems ems' : list EnrichedModel) :
  ems ≡ₚ ems' -> active_count ems = active_count ems'.
Proof.
  unfold active_count.
  induction 1 as [|x l l' _ IH|x y l|l l' l'' _ IH1 _ IH2]; simpl.
  - done.
  - destruct (isActive (insights x)); simpl; lia.
  - destruct (isActive (insights x)), (isActive (insights y)); simpl; lia.
  - lia.
Qed.

(** X12. When some model of the poll is below 90 %, the analysis marks at
    least one model active: the one with the lowest remaining
    percentage. *)
Theorem some_model_active_below_ninety (now : Z) (e : Engine)
    (ms : list ModelQuota) (config : QuotaConfig) (m : ModelQuota) :
  m ∈ ms -> remainingPercent m < 90 ->
  (1 <= active_count (analyze now e ms config).1.1)%nat /\
  exists em : EnrichedModel,
    em ∈ (analyze now e ms config).1.1 /\
    isActive (insights em) = true /\
    forall m', m' ∈ ms -> remainingPercent em <= remainingPercent m'.
Proof.
  intros Hm Hlt.
  destruct (Math_min (remainingPercent <$> ms)) as [lo|] eqn:Hmin.
  2:{ apply Math_min_None, fmap_nil_inv in Hmin. subst ms.
      by apply elem_of_nil in Hm. }
  apply Math_min_Some in Hmin as [Hin Hall].
  apply list_elem_of_fmap in Hin as (m0 & -> & Hm0).
  rewrite Forall_forall in Hall.
  assert (Hlow : forall m', m' ∈ ms -> remainingPercent m0 <= remainingPercent m').
  { intros m' Hm'. apply Hall, list_elem_of_fmap. by exists m'. }
  apply list_elem_of_lookup in Hm0 as [i Hi].
  pose proof (enriched_quota now e ms config) as Hq.
  assert (Hem : exists em, enriched now e ms config !! i = Some em /\ quota em = m0).
  { change (map quota ?l) with (quota <$> l) in Hq.
    rewrite <- Hq, list_lookup_fmap in Hi.
    destruct (enriched now e ms config !! i) as [em|]; [|discriminate].
    exists em. split; [done|]. by injection Hi. }
  destruct Hem as (em & Hem & Hquota).
  assert (Hact : isActive (insights em) = true).
  { unfold enriched in Hem.
    apply (analyzeEach_active _ _ _ _ _ i em Hem). right. right.
    rewrite Hquota. split_and!.
    - exists m0. split; [by eapply list_elem_of_lookup_2|done].
    - done.
    - specialize (Hlow m Hm). lia. }
  assert (Hres : em ∈ (analyze now e ms config).1.1).
  { rewrite analyze_perm. by eapply list_elem_of_lookup_2. }
  split; [by eapply active_count_pos|].
  exists em. split_and!; [done..|]. by rewrite Hquota.
Qed.

Lemma some_model_active_below_ninety_witness :
  let quotaOf id percent :=
    {| modelId := id; label := id; remainingPercent := percent;
       isExhausted := false; resetTime := None; timeUntilReset := None |} in
  let ms := [quotaOf "A" 100; quotaOf "B" 70] in
  let config := {| warningThreshold := 25; refreshInterval := 60;
                   pinnedModels := []; displayStyle := percentage |} in
  (1 <= active_count (analyze 0 (InsightsEngine.new ∅ 0) ms config).1.1)%nat /\
  exists em : EnrichedModel,
    em ∈ (analyze 0 (InsightsEngine.new ∅ 0) ms config).1.1 /\
    isActive (insights em) = true /\
    forall m', m' ∈ ms -> remainingPercent em <= remainingPercent m'.
Proof.
  intros quotaOf ms config.
  apply (some_model_active_below_ninety 0 (InsightsEngine.new ∅ 0) ms config
           (quotaOf "B" 70)).
  - apply list_elem_of_further, list_elem_of_here.
  - simpl. lia.
Defined.

(** X13. The burn-rate rule names at most one model id in a call: two
    models that both satisfy it have the same id. *)
Theorem burn_rate_rule_names_one_id (h : list HistoryEntry)
    (m m' : ModelQuota) (all : list ModelQuota) :
  highestBurner h m all = true ->
  highestBurner h m' all = true ->
  modelId m = modelId m'.
Proof.
  intros (_ & i & first & Hi & Hid & _ & Hub & Hfirst)%highestBurner_iff
         (_ & i' & first' & Hi' & Hid' & _ & Hub' & Hfirst')%highestBurner_iff.
  assert (Heq : (rate h first == rate h first')%Q).
  { apply Qle_antisym.
    - apply Hub'. by eapply list_elem_of_lookup_2.
    - apply Hub. by eapply list_elem_of_lookup_2. }
  destruct (Nat.lt_trichotomy i i') as [Hlt|[->|Hgt]].
  - by destruct (Hfirst' i first Hi Hlt).
  - rewrite Hi in Hi'. injection Hi' as ->. congruence.
  - symmetry in Heq. by destruct (Hfirst i' first' Hi' Hgt).
Qed.

Lemma burn_rate_rule_names_one_id_witness :
  let quotaOf id percent :=
    {| modelId := id; label := id; remainingPercent := percent;
       isExhausted := false; resetTime := None; timeUntilReset := None |} in
  let h := [ {| timestamp := 0; models := {[ "A" := 100 ]} |};
             {| timestamp := 3600000; models := {[ "A" := 80 ]} |} ] in
  modelId (quotaOf "A" 80) = modelId (quotaOf "A" 75).
Proof.
  intros quotaOf h.
  apply (burn_rate_rule_names_one_id h (quotaOf "A" 80) (quotaOf "A" 75)
           [quotaOf "B" 50; quotaOf "A" 80]); by vm_compute.
Defined.

Lemma analyzeEach_idle now e todo all pinned :
  lastActiveModelId e = None ->
  (length (history e) < 2)%nat ->
  (forall m, m ∈ todo -> ~ lowest_remaining_rule m all) ->
  lastActiveModelId (analyzeEach now e todo all pinned).2 = None /\
  Forall (fun em : EnrichedModel => isActive (insights em) = false)
         (analyzeEach now e todo all pinned).1.
Proof.
  revert e. induction todo as [|m rest IH]; intros e Hlast Hlen Hrule;
    cbn [analyzeEach].
  { split; [done|constructor]. }
  assert (Hidle : detectActiveModel e m all = false).
  { destruct (detectActiveModel e m all) eqn:Hd; [|done].
    apply detectActiveModel_iff in Hd as [(Hh & _)|[Hl|Hr]].
    - lia.
    - unfold last_active_rule in Hl. congruence.
    - destruct (Hrule m); [apply list_elem_of_here|done]. }
  pose proof (analyzeModel_history now e m all pinned) as Hh.
  pose proof (analyzeModel_lastActive now e m all pinned) as Hl.
  rewrite Hidle in Hl.
  destruct (analyzeModel now e m all pinned) as [em e1] eqn:Hm.
  assert (Hem : isActive (insights em) = false).
  { unfold analyzeModel in Hm. injection Hm as <- _. exact Hidle. }
  cbn [fst snd] in *.
  destruct (IH e1) as [IH1 IH2].
  - congruence.
  - by rewrite Hh.
  - intros m' Hm'. by apply Hrule, list_elem_of_further.
  - destruct (analyzeEach now e1 rest all pinned) as [ems e2].
    cbn [fst snd] in *. split; [done|]. by constructor.
Qed.

(** X14. A new engine with nothing stored marks no model active when
    every model of the poll is at 90 % or above: idle, nearly full models
    are not reported as in use. *)
Theorem no_model_active_when_all_nearly_full (now : Z) (e : Engine)
    (ms : list ModelQuota) (config : QuotaConfig) :
  history e = [] ->
  lastActiveModelId e = None ->
  (forall m, m ∈ ms -> 90 <= remainingPercent m) ->
  active_count (analyze now e ms config).1.1 = 0%nat /\
  lastActiveModelId (analyze now e ms config).2 = None.
Proof.
  intros Hh Hlast Hall.
  destruct (analyzeEach_idle now
              (initSessionTracking ms (recordHistory now ms e)) ms ms
              (pinnedModels config)) as [Hl Hidle].
  - done.
  - simpl. rewrite Hh. simpl. lia.
  - intros m Hm (_ & _ & Hlt). specialize (Hall m Hm). lia.
  - split.
    + rewrite (active_count_permutation _ _ (analyze_perm now e ms config)).
      unfold enriched, active_count.
      induction Hidle as [|em ems Hem _ IH]; simpl; [done|].
      by rewrite Hem.
    + unfold analyze. by destruct (analyzeEach _ _ _ _ _).
Qed.

Lemma no_model_active_when_all_nearly_full_witness :
  let quotaOf id percent :=
    {| modelId := id; label := id; remainingPercent := percent;
       isExhausted := false; resetTime := None; timeUntilReset := None |} in
  let ms := [quotaOf "A" 100; quotaOf "B" 95] in
  let config := {| warningThreshold := 25; refreshInterval := 60;
                   pinnedModels := []; displayStyle := percentage |} in
  active_count (analyze 0 (InsightsEngine.new ∅ 0) ms config).1.1 = 0%nat /\
  lastActiveModelId (analyze 0 (InsightsEngine.new ∅ 0) ms config).2 = None.
Proof.
  intros quotaOf ms config.
  apply (no_model_active_when_all_nearly_full 0 (InsightsEngine.new ∅ 0)
           ms config); [reflexivity..|].
  intros m Hm. unfold ms in Hm.
  apply elem_of_cons in Hm as [->|Hm]; [simpl; lia|].
  apply list_elem_of_singleton in Hm as ->. simpl. lia.
Defined.

(** *** Clearing the history *)

(** X15. Clearing the history empties the in-memory history and the
    stored one, so that an engine built on the storage afterwards starts
    with no history; it keeps the session baselines and the last active
    id; and the analysis that follows reports a burn rate of 0 for every
    model. *)
Theorem clearing_history_keeps_the_session (now later : Z) (e : Engine)
    (ms : list ModelQuota) (config : QuotaConfig) :
  history (clearHistory e) = [] /\
  globalState (clearHistory e) !! STORAGE_KEY = Some [] /\
  history (InsightsEngine.new (globalState (clearHistory e)) later) = [] /\
  sessionStartQuotas (clearHistory e) = sessionStartQuotas e /\
  lastActiveModelId (clearHistory e) = lastActiveModelId e /\
  Forall (fun em : EnrichedModel => burnRate (insights em) = 0%Q)
         (analyze now (clearHistory e) ms config).1.1.
Proof.
  split_and!; try done.
  - unfold clearHistory. simpl. by rewrite lookup_insert_eq.
  - unfold InsightsEngine.new, loadHistory, clearHistory. simpl.
    by rewrite lookup_insert_eq.
  - apply analyze_result_each. intros m ei _ Hh _.
    unfold analyzeModel. cbn [fst insights burnRate]. by rewrite Hh.
Qed.

End InsightsEngineFacts.

(** ** QuotaFetcher: discovery, parsing, time formatting *)

Module QuotaFetcherFacts.
Import Js Types QuotaFetcher Spec JsFacts QuotaFetcherSpec.

(** *** Discovery *)

Lemma getProcessInfo_token env attempt (s : Fetcher) :
  exists info,
    getProcessInfo env attempt s = (Returned info, s) /\
    token_at env attempt =
      (info ≫= fun i => if String.eqb (csrfToken i) "" then None
                         else Some (csrfToken i)).
Proof.
  unfold getProcessInfo, try_catch, lift, token_at.
  destruct (platformProcessInfo env attempt) as [[info|]|msg]; eauto.
Qed.

Lemma backoff_events_run (attempt maxRetries : nat) (s : Fetcher) :
  backoff attempt maxRetries s =
  (Returned tt, {| connection := connection s;
                   trace := trace s ++ backoff_events attempt maxRetries |}).
Proof.
  unfold backoff, backoff_events, delay, emit, mret, M_ret.
  destruct (attempt <? maxRetries)%nat; [done|].
  rewrite app_nil_r. by destruct s.
Qed.

(** A failed attempt: the port scan when there is a token, then the
    back-off; the connection is as it was. *)
Lemma connectAttempt_fails env (attempt maxRetries : nat) (s : Fetcher) :
  attempt_fails env attempt ->
  connectAttempt env attempt maxRetries s =
  (Returned Continue,
   {| connection := connection s;
      trace := trace s ++ attempt_probes env attempt
                       ++ backoff_events attempt maxRetries |}).
Proof.
  unfold attempt_fails, attempt_probes. intros Hfail.
  unfold connectAttempt, try_catch. unfold mbind at 1, M_bind at 1.
  destruct (getProcessInfo_token env attempt s) as (info & -> & Htok).
  rewrite Htok in *. clear Htok.
  destruct info as [info|]; simpl in Hfail |- *.
  2:{ unfold mbind, M_bind, mret, M_ret. by rewrite backoff_events_run. }
  destruct (String.eqb (csrfToken info) "") eqn:Hempty.
  { unfold mbind, M_bind, mret, M_ret. by rewrite backoff_events_run. }
  unfold mbind at 1, M_bind at 1. rewrite findApiPort_run.
  apply no_working_port in Hfail. rewrite Hfail. cbn [fmap option_fmap option_map].
  unfold mbind, M_bind, mret, M_ret. rewrite backoff_events_run.
  cbn [connection trace]. by rewrite <- app_assoc.
Qed.

(** A successful attempt: the port scan, and the connection stored. *)
Lemma connectAttempt_finds env (attempt maxRetries : nat) (s : Fetcher)
    (token : string) (p : Z) :
  attempt_finds env attempt token p ->
  connectAttempt env attempt maxRetries s =
  (Returned (Return true),
   {| connection := Some {| port := p; connToken := token |};
      trace := trace s ++ attempt_probes env attempt |}).
Proof.
  unfold attempt_finds, attempt_probes. intros (Htoken & Hwin & Hvalid & Hlow).
  unfold connectAttempt, try_catch. unfold mbind at 1, M_bind at 1.
  destruct (getProcessInfo_token env attempt s) as (info & -> & Htok).
  rewrite Htoken in *.
  destruct info as [info|]; [|discriminate]. simpl in Htok.
  destruct (String.eqb (csrfToken info) "") eqn:Hempty; [discriminate|].
  injection Htok as Htok. rewrite <- Htok.
  unfold mbind at 1, M_bind at 1. rewrite findApiPort_run.
  pose proof (proj2 (first_working_port env attempt token p)
                (conj Hwin (conj Hvalid Hlow))) as Hfound.
  rewrite Hfound.
  assert (Hp : (p =? 0) = false).
  { apply Z.eqb_neq. unfold in_window, PORT_START in Hwin. lia. }
  rewrite Hp. by unfold mbind, M_bind, mret, M_ret, set_connection.
Qed.

Lemma connectLoop_gives_up env (remaining attempt maxRetries : nat)
    (s : Fetcher) :
  (forall j, (attempt <= j < attempt + remaining)%nat -> attempt_fails env j) ->
  connectLoop env remaining attempt maxRetries s =
  (Returned false,
   {| connection := connection s;
      trace := trace s ++
        flat_map (fun j => attempt_probes env j ++ backoff_events j maxRetries)
                 (seq attempt remaining) |}).
Proof.
  revert attempt s. induction remaining as [|k IH]; intros attempt s Hfail.
  - simpl. unfold mret, M_ret. rewrite app_nil_r. by destruct s.
  - cbn [connectLoop]. unfold mbind at 1, M_bind at 1.
    rewrite connectAttempt_fails by (apply Hfail; lia).
    rewrite IH by (intros j Hj; apply Hfail; lia).
    simpl. by rewrite <- !app_assoc.
Qed.

Lemma connectLoop_succeeds env (before remaining attempt maxRetries : nat)
    (s : Fetcher) (token : string) (p : Z) :
  (forall j, (attempt <= j < attempt + before)%nat -> attempt_fails env j) ->
  attempt_finds env (attempt + before) token p ->
  (before < remaining)%nat ->
  connectLoop env remaining attempt maxRetries s =
  (Returned true,
   {| connection := Some {| port := p; connToken := token |};
      trace := trace s ++
        flat_map (fun j => attempt_probes env j ++ backoff_events j maxRetries)
                 (seq attempt before)
        ++ attempt_probes env (attempt + before) |}).
Proof.
  revert attempt remaining s.
  induction before as [|b IH]; intros attempt remaining s Hfail Hfind Hlt.
  - destruct remaining as [|k]; [lia|].
    cbn [connectLoop]. unfold mbind at 1, M_bind at 1.
    rewrite Nat.add_0_r in *.
    by rewrite (connectAttempt_finds _ _ _ _ token p).
  - destruct remaining as [|k]; [lia|].
    cbn [connectLoop]. unfold mbind at 1, M_bind at 1.
    rewrite connectAttempt_fails by (apply Hfail; lia).
    rewrite (IH (S attempt) k).
    + simpl. rewrite <- !app_assoc.
      by replace (S (attempt + b)) with (attempt + S b)%nat by lia.
    + intros j Hj. apply Hfail. lia.
    + by replace (S attempt + b)%nat with (attempt + S b)%nat by lia.
    + lia.
Qed.

Lemma flat_map_ext_elem {A B} (f g : A -> list B) (l : list A) :
  (forall x, In x l -> f x = g x) -> flat_map f l = flat_map g l.
Proof.
  induction l as [|x r IH]; intros Hfg; simpl; [done|].
  rewrite (Hfg x) by (by left). rewrite IH; [done|].
  intros y Hy. apply Hfg. by right.
Qed.

Lemma probes_have_no_delay env (attempt : nat) :
  List.filter (fun ev => match ev with Delay _ => true | _ => false end)
              (attempt_probes env attempt) = [].
Proof.
  assert (Hnone : forall (f : Z -> Event) (l : list Z),
    (forall q, match f q with Delay _ => false | _ => true end = true) ->
    List.filter (fun ev => match ev with Delay _ => true | _ => false end)
                (f <$> l) = []).
  { intros f l Hf. induction l as [|q r IH]; [done|].
    rewrite fmap_cons. cbn [List.filter]. rewrite IH.
    specialize (Hf q). by destruct (f q). }
  unfold attempt_probes. destruct (token_at env attempt); [|reflexivity].
  unfold scan_events. rewrite List.filter_app.
  by rewrite !Hnone.
Qed.

Lemma delays_of_attempts env (attempt count maxRetries : nat) :
  (attempt + count <= maxRetries)%nat ->
  length (List.filter
            (fun ev => match ev with Delay _ => true | _ => false end)
            (flat_map (fun j => attempt_probes env j
                                ++ backoff_events j maxRetries)
                      (seq attempt count))) = count.
Proof.
  revert attempt. induction count as [|c IH]; intros attempt Hle; simpl; [done|].
  rewrite !List.filter_app, probes_have_no_delay, !length_app.
  rewrite IH by lia. unfold backoff_events.
  destruct (Nat.ltb_spec attempt maxRetries); [done|lia].
Qed.

Lemma attempt_probes_io env (attempt : nat) :
  attempt_io env attempt (attempt_probes env attempt).
Proof.
  unfold attempt_io, attempt_probes.
  destruct (token_at env attempt); [apply scan_events_scan_io|done].
Qed.

(** X16. Discovery stops at its first successful attempt. When the
    attempts before attempt k find no token or no valid port, and attempt
    k finds a token and has p as its lowest valid port, connect returns
    true with the connection (p, token). Each attempt that had a token
    has scanned the ports once: a TCP probe to every port of the window
    in ascending order, then a handshake to every open port, in the order
    in which the probes settled. It has waited two seconds after each of
    the k - 1 failed attempts, and has done nothing after attempt k. *)
Theorem connect_stops_at_first_success (env : Env) (maxRetries k : nat)
    (s : Fetcher) (token : string) (p : Z) :
  (1 <= k <= maxRetries)%nat ->
  (forall j, (1 <= j < k)%nat -> attempt_fails env j) ->
  attempt_finds env k token p ->
  exists (s' : Fetcher) (scans : nat -> list Event),
    connect env maxRetries s = (Returned true, s') /\
    connection s' = Some {| port := p; connToken := token |} /\
    (forall j, attempt_io env j (scans j)) /\
    trace s' = trace s ++
      flat_map (fun j => scans j ++ [Delay 2000]) (seq 1 (k - 1))
      ++ scans k /\
    delays s' = (delays s + (k - 1))%nat.
Proof.
  intros Hk Hfail Hfind. unfold connect.
  rewrite (connectLoop_succeeds env (k - 1) maxRetries 1 maxRetries s token p).
  - replace (1 + (k - 1))%nat with k by lia.
    exists {| connection := Some {| port := p; connToken := token |};
              trace := trace s ++
                flat_map (fun j => attempt_probes env j
                                   ++ backoff_events j maxRetries)
                         (seq 1 (k - 1))
                ++ attempt_probes env k |},
           (attempt_probes env).
    split; [reflexivity|]. split; [done|].
    split; [apply attempt_probes_io|]. split.
    + cbn [trace]. do 2 f_equal. apply flat_map_ext_elem. intros j Hj%in_seq.
      unfold backoff_events. destruct (Nat.ltb_spec j maxRetries); [done|lia].
    + unfold delays. cbn [trace].
      rewrite !List.filter_app, !length_app, probes_have_no_delay.
      rewrite delays_of_attempts by lia. simpl. lia.
  - intros j Hj. apply Hfail. lia.
  - by replace (1 + (k - 1))%nat with k by lia.
  - lia.
Qed.

Lemma connect_stops_at_first_success_witness :
  let env := {| platformProcessInfo := fun attempt =>
                  if (attempt <? 2)%nat then Returned None
                  else Returned (Some {| pid := 7; extensionPort := 0;
                                         csrfToken := "abc123" |});
                isPortOpen := fun _ q => q =? 8095;
                tcpSettledAt := fun _ _ => 0;
                testApiEndpoint := fun _ _ _ => true;
                userStatusReply := fun _ => RequestTimeout;
                JSON_parse := fun _ => None;
                Date_getTime := fun _ => None |} in
  exists (s' : Fetcher) (scans : nat -> list Event),
    connect env 3 QuotaFetcher.new = (Returned true, s') /\
    connection s' = Some {| port := 8095; connToken := "abc123" |} /\
    (forall j, attempt_io env j (scans j)) /\
    trace s' = trace QuotaFetcher.new ++
      flat_map (fun j => scans j ++ [Delay 2000]) (seq 1 (2 - 1))
      ++ scans 2%nat /\
    delays s' = (delays QuotaFetcher.new + (2 - 1))%nat.
Proof.
  intros env.
  apply (connect_stops_at_first_success env 3 2 QuotaFetcher.new "abc123" 8095).
  - lia.
  - intros j Hj. assert (j = 1%nat) as -> by lia. exact I.
  - split; [reflexivity|]. split; [by vm_compute|]. split; [by vm_compute|].
    intros q [Hq _] Hlt [Hopen _]. simpl in Hopen.
    apply Z.eqb_eq in Hopen. lia.
Defined.

(** X17. When every one of the maxRetries attempts finds no token or no
    valid port, connect returns false and leaves the connection as it
    was. Each attempt that had a token has scanned the ports once (a TCP
    probe to every port of the window in ascending order, then a
    handshake to every open port, in the order in which the probes
    settled), and connect has waited two seconds after each attempt but
    the last, that is maxRetries - 1 times. *)
Theorem connect_gives_up_after_max_retries (env : Env) (maxRetries : nat)
    (s : Fetcher) :
  (forall j, (1 <= j <= maxRetries)%nat -> attempt_fails env j) ->
  exists (s' : Fetcher) (scans : nat -> list Event),
    connect env maxRetries s = (Returned false, s') /\
    connection s' = connection s /\
    (forall j, attempt_io env j (scans j)) /\
    trace s' = trace s ++
      flat_map (fun j => scans j ++ backoff_events j maxRetries)
               (seq 1 maxRetries) /\
    delays s' = (delays s + (maxRetries - 1))%nat.
Proof.
  intros Hfail. unfold connect.
  rewrite connectLoop_gives_up by (intros j Hj; apply Hfail; lia).
  eexists _, (attempt_probes env).
  split; [reflexivity|]. split; [done|].
  split; [apply attempt_probes_io|]. split; [done|].
  unfold delays. cbn [trace]. rewrite List.filter_app, length_app. f_equal.
  destruct maxRetries as [|n]; [done|].
  rewrite seq_S, flat_map_app, List.filter_app, length_app.
  rewrite delays_of_attempts by lia. simpl.
  rewrite app_nil_r, List.filter_app, probes_have_no_delay.
  unfold backoff_events. rewrite Nat.ltb_irrefl. simpl. lia.
Qed.

Lemma connect_gives_up_after_max_retries_witness :
  let env := {| platformProcessInfo := fun _ => Thrown "pgrep failed";
                isPortOpen := fun _ _ => true;
                tcpSettledAt := fun _ _ => 0;
                testApiEndpoint := fun _ _ _ => true;
                userStatusReply := fun _ => RequestTimeout;
                JSON_parse := fun _ => None;
                Date_getTime := fun _ => None |} in
  exists (s' : Fetcher) (scans : nat -> list Event),
    connect env 3 QuotaFetcher.new = (Returned false, s') /\
    connection s' = connection QuotaFetcher.new /\
    (forall j, attempt_io env j (scans j)) /\
    trace s' = trace QuotaFetcher.new ++
      flat_map (fun j => scans j ++ backoff_events j 3) (seq 1 3) /\
    delays s' = (delays QuotaFetcher.new + (3 - 1))%nat.
Proof.
  intros env.
  apply (connect_gives_up_after_max_retries env 3 QuotaFetcher.new).
  intros j _. exact I.
Defined.



(** *** Parsing *)

Lemma parseModels_returns_iff env now (raw : list (option RawModelConfig)) :
  (exists qs, parseModels env now raw = Returned qs) <->
  Forall (fun entry => is_Some entry) raw.
Proof.
  induction raw as [|[m|] rest IH]; simpl.
  - split; [constructor|by eexists].
  - rewrite Forall_cons, <- IH. split.
    + intros [qs Hqs]. split; [by eexists|].
      destruct (quotaInfo m); [|by eexists].
      destruct (parseModels env now rest); [by eexists|discriminate].
    + intros [_ [qs ->]]. destruct (quotaInfo m); by eexists.
  - split; [by intros [? [=]]|].
    intros [[? [=]] _]%Forall_cons.
Qed.

(** X19. Parsing a status body throws exactly when the body is [null],
    when its model list is a value that cannot be iterated (a number,
    [true] or an object), or when the list has a [null] element; every
    other body, whatever fields it lacks, parses. *)
Theorem parse_throws_on_null_or_not_iterable (env : Env) (now : Z)
    (data : option StatusData) :
  ((exists r, parseResponse env now data = Returned r) <->
   exists d, data = Some d /\
             model_configs d <> Some NotIterable /\
             Forall (fun entry => is_Some entry) (raw_models d)) /\
  ((exists message, parseResponse env now data = Thrown message) <->
   data = None \/
   exists d, data = Some d /\
             (model_configs d = Some NotIterable \/
              Exists (fun entry => entry = None) (raw_models d))).
Proof.
  assert (Hret : (exists r, parseResponse env now data = Returned r) <->
    exists d, data = Some d /\
              model_configs d <> Some NotIterable /\
              Forall (fun entry => is_Some entry) (raw_models d)).
  { destruct data as [d|].
    - unfold parseResponse. fold (model_configs d).
      rewrite parseRawModels_cases. split.
      + intros [r Hr]. exists d. split; [done|].
        destruct (model_configs d) as [[entries|]|] eqn:Hconfigs;
          [|discriminate|]; (split; [done|]);
          apply (parseModels_returns_iff env now);
          (destruct (parseModels env now (raw_models d));
             [by eexists|discriminate]).
      + intros (d' & [= <-] & Hiter & Hall).
        apply (parseModels_returns_iff env now) in Hall as [qs Hqs].
        destruct (model_configs d) as [[entries|]|] eqn:Hconfigs;
          [|done|]; rewrite Hqs; by eexists.
    - split; [by intros [? [=]]|by intros (? & [=] & _)]. }
  split; [exact Hret|]. split.
  - intros [message Hthrown]. destruct data as [d|]; [right|by left].
    exists d. split; [done|].
    assert (Hdec : model_configs d = Some NotIterable \/
                   model_configs d <> Some NotIterable).
    { destruct (model_configs d) as [[entries|]|]; [right|left|right]; done. }
    destruct Hdec as [|Hiter]; [by left|right].
    apply (Exists_impl (not ∘ is_Some));
      [|intros x Hx; by apply eq_None_not_Some].
    apply not_Forall_Exists; [apply _|].
    intros Hall. destruct (proj2 Hret) as [r Hr]; [by exists d|]. congruence.
  - intros Hcase.
    destruct (parseResponse env now data) as [r|message] eqn:Hp; [|by eexists].
    destruct (proj1 Hret) as (d & -> & Hiter & Hall); [by eexists|].
    destruct Hcase as [[=]|(d' & [= <-] & [Hno|Hex])]; [done|].
    apply Exists_exists in Hex as (entry & Hin & ->).
    rewrite Forall_forall in Hall. by destruct (Hall None Hin).
Qed.

Lemma or_default_nonempty (a : option string) (d : string) :
  d <> "" -> or_default a d <> "".
Proof.
  intros Hd. unfold or_default, or_else, truthy.
  destruct a as [[|c s]|]; done.
Qed.

(** X20. A parsed snapshot carries the time of the call, and no empty
    names: every model has a non-empty id and a non-empty label (the
    defaults "unknown" and "Unknown Model" stand in), its reset time is
    absent rather than empty, and it has a time-until-reset exactly when
    it has a reset time. The user info is absent exactly when the body
    is [0], [false] or the empty string; when present it has a non-empty
    name, plan name and tier. *)
Theorem parsed_snapshot_has_no_empty_names (env : Env) (now : Z)
    (data : option StatusData) (r : RawQuotaResponse) :
  parseResponse env now data = Returned r ->
  timestamp r = now /\
  Forall (fun q : ModelQuota =>
            modelId q <> "" /\ label q <> "" /\ resetTime q <> Some "" /\
            (is_Some (timeUntilReset q) <-> is_Some (resetTime q)))
         (models r) /\
  (userInfo r = None <-> data = Some Falsy) /\
  (forall u, userInfo r = Some u ->
             name u <> "" /\ planName u <> "" /\ tier u <> "").
Proof.
  intros Hr. pose proof (parseResponse_models env now data r Hr) as (d & -> & Hms).
  unfold parseResponse in Hr. fold (model_configs d) in Hr.
  destruct (parseRawModels env now (model_configs d)) as [qs|]; [|discriminate].
  injection Hr as <-. cbn [timestamp models userInfo]. split_and!.
  - done.
  - simpl in Hms. rewrite Hms. apply Forall_forall.
    intros q Hq%list_elem_of_In. apply in_map_iff in Hq as ([m qi] & <- & _).
    unfold parseModel. cbn [modelId label resetTime timeUntilReset].
    split_and!; try (by apply or_default_nonempty).
    + unfold truthy. by destruct (rawResetTime qi) as [[|c s]|].
    + by rewrite fmap_is_Some.
  - destruct d; split; (done || by intros [=]).
  - intros u Hu. destruct d; [discriminate|]. injection Hu as <-. simpl.
    split_and!; by apply or_default_nonempty.
Qed.

Lemma parsed_snapshot_has_no_empty_names_witness :
  let env := {| platformProcessInfo := fun _ => Returned None;
                isPortOpen := fun _ _ => false;
                tcpSettledAt := fun _ _ => 0;
                testApiEndpoint := fun _ _ _ => false;
                userStatusReply := fun _ => RequestTimeout;
                JSON_parse := fun _ => None;
                Date_getTime := fun _ => Some 5400000 |} in
  let status :=
    {| rawName := Some ""; rawEmail := None; planStatus := None;
       cascadeModelConfigData :=
         Some {| clientModelConfigs :=
                   Some (Iterable
                     [ Some {| rawLabel := Some "";
                               modelOrAlias :=
                                 Some {| model := Some ""; alias := None |};
                               quotaInfo :=
                                 Some {| remainingFraction := Some (1 # 2)%Q;
                                         rawResetTime := Some "2026-01-01" |} |} ]) |};
       userTier := None |} in
  let data := Some (Object None status) in
  exists r, parseResponse env 0 data = Returned r /\
    map (fun q => (modelId q, label q, timeUntilReset q)) (models r)
      = [("unknown", "Unknown Model", Some "1h 30m")] /\
    timestamp r = 0 /\
    Forall (fun q : ModelQuota =>
              modelId q <> "" /\ label q <> "" /\ resetTime q <> Some "" /\
              (is_Some (timeUntilReset q) <-> is_Some (resetTime q)))
           (models r) /\
    (userInfo r = None <-> data = Some Falsy) /\
    (forall u, userInfo r = Some u ->
               name u <> "" /\ planName u <> "" /\ tier u <> "").
Proof.
  intros env status data.
  eexists. split; [reflexivity|]. split; [reflexivity|].
  apply (parsed_snapshot_has_no_empty_names env 0 data). reflexivity.
Defined.

Lemma parseCredits_monthly (ps : option RawPlanStatus)
    (availableOf : RawPlanStatus -> option Q)
    (monthlyOf : RawPlanInfo -> option Q) (c : CreditInfo) :
  parseCredits ps availableOf monthlyOf = Some c ->
  (0 < monthly c)%Q /\
  exists plan, ps = Some plan /\
               monthly c = num_or_zero (planInfo plan ≫= monthlyOf) /\
               available c = num_or_zero (availableOf plan).
Proof.
  unfold parseCredits. destruct ps as [plan|]; [|discriminate].
  destruct (Qle_bool _ 0) eqn:Hle; [discriminate|]. intros [= <-]. simpl.
  split; [|by exists plan].
  apply Qnot_le_lt. intros H. apply Qle_bool_iff in H. congruence.
Qed.

(** X21. A credit pool is present in a parsed snapshot only with a
    monthly allowance above 0: a response without plan status, without a
    monthly figure, or with a monthly figure of 0 or less yields no pool;
    the available amount of a pool that is present defaults to 0. *)
Theorem credit_pools_have_positive_monthly (env : Env) (now : Z)
    (data : option StatusData) (r : RawQuotaResponse) :
  parseResponse env now data = Returned r ->
  (forall c, promptCredits r = Some c ->
             (0 < monthly c)%Q /\
             exists d plan,
               data = Some d /\
               planStatus (default (unwrapped d) (userStatus d)) = Some plan /\
               available c = default 0%Q (availablePromptCredits plan)) /\
  (forall c, flowCredits r = Some c ->
             (0 < monthly c)%Q /\
             exists d plan,
               data = Some d /\
               planStatus (default (unwrapped d) (userStatus d)) = Some plan /\
               available c = default 0%Q (availableFlowCredits plan)).
Proof.
  intros Hr. unfold parseResponse in Hr. destruct data as [d|]; [|discriminate].
  fold (model_configs d) in Hr.
  destruct (parseRawModels env now (model_configs d)) as [qs|]; [|discriminate].
  injection Hr as <-. cbn [promptCredits flowCredits].
  split; intros c (Hpos & plan & Hplan & _ & Havail)%parseCredits_monthly;
    (split; [done|]); by exists d, plan.
Qed.

Lemma credit_pools_have_positive_monthly_witness :
  let env := {| platformProcessInfo := fun _ => Returned None;
                isPortOpen := fun _ _ => false;
                tcpSettledAt := fun _ _ => 0;
                testApiEndpoint := fun _ _ _ => false;
                userStatusReply := fun _ => RequestTimeout;
                JSON_parse := fun _ => None;
                Date_getTime := fun _ => None |} in
  let plan :=
    {| planInfo := Some {| rawPlanName := Some "Pro"; teamsTier := None;
                           monthlyPromptCredits := Some 500%Q;
                           monthlyFlowCredits := Some 0%Q |};
       availablePromptCredits := None;
       availableFlowCredits := Some 10%Q |} in
  let status :=
    {| rawName := None; rawEmail := None; planStatus := Some plan;
       cascadeModelConfigData := None; userTier := None |} in
  let data := Some (Object (Some status) status) in
  exists r, parseResponse env 0 data = Returned r /\
    promptCredits r = Some {| available := 0; monthly := 500 |} /\
    flowCredits r = None /\
    (forall c, promptCredits r = Some c ->
               (0 < monthly c)%Q /\
               exists d plan,
                 data = Some d /\
                 planStatus (default (unwrapped d) (userStatus d)) = Some plan /\
                 available c = default 0%Q (availablePromptCredits plan)) /\
    (forall c, flowCredits r = Some c ->
               (0 < monthly c)%Q /\
               exists d plan,
                 data = Some d /\
                 planStatus (default (unwrapped d) (userStatus d)) = Some plan /\
                 available c = default 0%Q (availableFlowCredits plan)).
Proof.
  intros env plan status data.
  eexists. split; [reflexivity|]. split; [reflexivity|]. split; [reflexivity|].
  apply (credit_pools_have_positive_monthly env 0 data). reflexivity.
Defined.

(** *** Time until reset *)

Lemma append_assoc (a b c : string) : (a +:+ b) +:+ c = a +:+ b +:+ c.
Proof.
  induction a as [|x a IH]; [done|].
  change (String x ((a +:+ b) +:+ c) = String x (a +:+ b +:+ c)).
  by rewrite IH.
Qed.

Lemma ceil_minutes_pos (ms : Z) :
  0 < ms -> 1 <= Math_ceil (inject_Z ms / 60000).
Proof.
  intros Hms. unfold Math_ceil.
  assert (H0 : (0 < inject_Z ms / 60000)%Q).
  { apply Qlt_shift_div_l; [done|]. rewrite Qmult_0_l.
    change 0%Q with (inject_Z 0). by rewrite <- Zlt_Qlt. }
  assert (H1 : (0 < inject_Z (Qceiling (inject_Z ms / 60000)))%Q).
  { eapply Qlt_le_trans; [exact H0|apply Qle_ceiling]. }
  change 0%Q with (inject_Z 0) in H1. rewrite <- Zlt_Qlt in H1. lia.
Qed.

(** X22. The two duration formatters of the repository agree, except on
    whole hours: for a reset that is due, under an hour away, or not a
    whole number of hours away (in minutes rounded up) the fetcher's
    [formatTime] and [formatDuration] give the same text; on a whole
    number of hours [formatTime] appends " 0m" to what [formatDuration]
    gives. [formatDuration] never takes its "<1m" branch. *)
Theorem duration_formatters_agree (ms : Z) :
  let mins := Math_ceil (inject_Z ms / 60000) in
  (ms <= 0 \/ mins < 60 \/ mins mod 60 <> 0 ->
   formatTime (Some ms) = Formatters.formatDuration ms) /\
  (0 < ms -> 60 <= mins -> mins mod 60 = 0 ->
   formatTime (Some ms) = Formatters.formatDuration ms +:+ " 0m") /\
  (0 < ms -> (mins <? 1) = false).
Proof.
  intros mins. unfold formatTime, Formatters.formatDuration. fold mins.
  destruct (Z.leb_spec ms 0) as [Hle|Hgt].
  { split_and!; [done|lia..]. }
  pose proof (ceil_minutes_pos ms Hgt) as Hpos. fold mins in Hpos.
  assert (Hone : (mins <? 1) = false) by (apply Z.ltb_ge; lia).
  rewrite Hone. destruct (Z.ltb_spec mins 60) as [Hlt|Hge].
  { split_and!; [done|lia|done]. }
  destruct (Z.eqb_spec (mins mod 60) 0) as [Hz|Hnz].
  - split_and!; [lia| |done]. intros _ _ _. rewrite Hz.
    by rewrite append_assoc.
  - split_and!; [done|lia|done].
Qed.

(** *** Rediscovery *)

Lemma fetch_cases env now (s : Fetcher) :
  fetch env now s =
  let attempt s1 :=
    try_catch
      (response ← makeApiRequest env;
       parsed ← lift (parseResponse env now response);
       mret (Some parsed))
      (fun _ => set_connection None;; mret None) s1 in
  match connection s with
  | Some _ => attempt s
  | None =>
      match connect env 3 s with
      | (Returned true, s1) => attempt s1
      | (Returned false, s1) => (Returned None, s1)
      | (Thrown message, s1) => (Thrown message, s1)
      end
  end.
Proof.
  unfold fetch, get_connection. unfold mbind at 1, M_bind at 1. cbv zeta.
  destruct (connection s); [done|].
  unfold mbind at 1, M_bind at 1.
  by destruct (connect env 3 s) as [[[|]|message] s1].
Qed.

(** X23. A failed request forces rediscovery. After a fetch on a cached
    connection has met a transport or parse error, the fetcher holds no
    connection, and the next fetch begins with discovery: it returns null
    without sending a status request when discovery fails, and otherwise
    sends its status request on the connection just discovered. *)
Theorem failed_fetch_forces_rediscovery (env env' : Env) (now now' : Z)
    (s : Fetcher) (conn : ConnectionParams) :
  connection s = Some conn ->
  status_failure env now conn ->
  let s1 := (fetch env now s).2 in
  (fetch env now s).1 = Returned None /\
  isConnected s1 = false /\
  exists (connected : bool) (s2 : Fetcher),
    connect env' 3 s1 = (Returned connected, s2) /\
    (connected = false -> fetch env' now' s1 = (Returned None, s2)) /\
    (connected = true ->
     exists conn', connection s2 = Some conn' /\
                   trace (fetch env' now' s1).2
                   = trace s2 ++ [StatusRequest (port conn')]).
Proof.
  intros Hconn Hfail s1.
  assert (Hfirst : fetch env now s =
            (Returned None,
             {| connection := None;
                trace := trace s ++ [StatusRequest (port conn)] |})).
  { rewrite fetch_cases, Hconn. cbv zeta.
    destruct (fetch_try env now s) as (r & s' & -> & _ & Herr & _).
    destruct (request_and_parse_cases env now s conn Hconn) as [Hthrows _].
    destruct (Hthrows Hfail) as [message Hbody].
    by destruct (Herr _ _ Hbody) as [-> ->]. }
  unfold s1. rewrite Hfirst. cbn [fst snd]. split_and!; [done..|].
  set (s0 := {| connection := None; trace := _ |}).
  unfold connect.
  destruct (connectLoop_run env' 3 1 3 s0) as (connected & s2 & Hrun & _ & Hc).
  exists connected, s2. split; [done|]. split.
  - intros ->. rewrite fetch_cases. cbn [connection s0]. unfold connect.
    by rewrite Hrun.
  - intros ->. destruct Hc as [conn' Hc]. exists conn'. split; [done|].
    rewrite fetch_cases. cbn [connection s0]. unfold connect. rewrite Hrun.
    cbv zeta.
    destruct (fetch_try env' now' s2) as (r & s' & -> & _ & Herr & Hok).
    destruct (request_and_parse_cases env' now' s2 conn' Hc) as [Hthrows Hfine].
    destruct (status_failure_dec env' now' conn') as [Hf|Hf].
    + destruct (Hthrows Hf) as [message Hbody].
      by destruct (Herr _ _ Hbody) as [-> ->].
    + destruct (Hfine Hf) as [parsed Hbody].
      by destruct (Hok _ _ Hbody) as (-> & -> & _).
Qed.

Lemma failed_fetch_forces_rediscovery_witness :
  let env := {| platformProcessInfo := fun _ =>
                  Returned (Some {| pid := 7; extensionPort := 0;
                                    csrfToken := "abc123" |});
                isPortOpen := fun _ q => q =? 8095;
                tcpSettledAt := fun _ _ => 0;
                testApiEndpoint := fun _ _ _ => true;
                userStatusReply := fun _ => RequestTimeout;
                JSON_parse := fun _ => None;
                Date_getTime := fun _ => None |} in
  let conn := {| port := 8100; connToken := "old" |} in
  let s := {| connection := Some conn; trace := [] |} in
  let s1 := (fetch env 0 s).2 in
  (fetch env 0 s).1 = Returned None /\
  isConnected s1 = false /\
  exists (connected : bool) (s2 : Fetcher),
    connect env 3 s1 = (Returned connected, s2) /\
    (connected = false -> fetch env 1 s1 = (Returned None, s2)) /\
    (connected = true ->
     exists conn', connection s2 = Some conn' /\
                   trace (fetch env 1 s1).2
                   = trace s2 ++ [StatusRequest (port conn')]).
Proof.
  intros env conn s.
  apply (failed_fetch_forces_rediscovery env env 0 1 s conn); [reflexivity|].
  exact I.
Defined.

End QuotaFetcherFacts.

(** ** QuotaStore: runs of dispatches *)

Module QuotaStoreFacts.
Import Js Types QuotaStore Spec.

Lemma dispatchAll_snoc (steps : list (Z * QuotaAction)) (step : Z * QuotaAction)
    (s : Store) :
  dispatchAll (steps ++ [step]) s =
  dispatch step.1 step.2 (dispatchAll steps s).
Proof. unfold dispatchAll. by rewrite foldl_snoc. Qed.

(** X24. The data last fetched survives every action but UPDATE: after
    any run of LOADING, ERROR and CLEAR_ERROR actions the store still
    holds the models, credit pools, health and last-update time it held
    before, and the session start never changes. *)
Theorem data_survives_all_but_update (steps : list (Z * QuotaAction))
    (s : Store) :
  Forall (fun step : Z * QuotaAction =>
            forall payload, step.2 <> UPDATE payload) steps ->
  let s' := dispatchAll steps s in
  models (state s') = models (state s) /\
  promptCredits (state s') = promptCredits (state s) /\
  flowCredits (state s') = flowCredits (state s) /\
  health (state s') = health (state s) /\
  lastUpdate (state s') = lastUpdate (state s) /\
  sessionStart (state s') = sessionStart (state s).
Proof.
  intros Hsteps.
  induction steps as [|[now action] steps IH] using rev_ind; [done|].
  apply Forall_app in Hsteps as [Hsteps [Hstep _]%Forall_cons].
  rewrite dispatchAll_snoc. cbv zeta in *. cbn [fst snd] in *.
  destruct (IH Hsteps) as (H1 & H2 & H3 & H4 & H5 & H6).
  destruct action as [|payload|message|]; [|by destruct (Hstep payload)|..];
    simpl; by rewrite <- H1, <- H2, <- H3, <- H4, <- H5, <- H6.
Qed.

Lemma data_survives_all_but_update_witness :
  let s := dispatch 5 (UPDATE {| p_models := [];
                                 p_promptCredits :=
                                   Some {| available := 3; monthly := 10 |};
                                 p_flowCredits := None;
                                 p_health := {| score := 80; level := excellent;
                                                health_label := "Excellent" |};
                                 p_lastUpdate := 5 |})
                    (QuotaStore.new 0) in
  let s' := dispatchAll [(6, LOADING); (7, ERROR "offline"); (8, CLEAR_ERROR)] s in
  models (state s') = models (state s) /\
  promptCredits (state s') = promptCredits (state s) /\
  flowCredits (state s') = flowCredits (state s) /\
  health (state s') = health (state s) /\
  lastUpdate (state s') = lastUpdate (state s) /\
  sessionStart (state s') = sessionStart (state s).
Proof.
  intros s.
  apply (data_survives_all_but_update
           [(6, LOADING); (7, ERROR "offline"); (8, CLEAR_ERROR)] s).
  repeat constructor; discriminate.
Defined.

(** X25. Every dispatch hands the new state to the subscribers, once:
    after a run of dispatches the notifications are those there were
    before followed by one state per dispatch, the last of them being the
    state the store now holds; UPDATE included, no action changes the
    session start. *)
Theorem every_dispatch_notifies_once (steps : list (Z * QuotaAction))
    (s : Store) :
  let s' := dispatchAll steps s in
  (exists new, notified s' = notified s ++ new /\
               length new = length steps /\
               (steps <> [] -> last new = Some (state s'))) /\
  sessionStart (state s') = sessionStart (state s).
Proof.
  induction steps as [|[now action] steps IH] using rev_ind.
  { split; [|done]. exists []. by rewrite app_nil_r. }
  rewrite dispatchAll_snoc. cbv zeta in *. cbn [fst snd].
  destruct IH as [(new & Hnew & Hlen & _) Hstart]. split.
  - exists (new ++ [reduce now (state (dispatchAll steps s)) action]).
    unfold dispatch. cbn [notified state]. rewrite Hnew, <- app_assoc.
    split_and!; [done| |].
    + rewrite !length_app. simpl. lia.
    + intros _. by rewrite last_snoc.
  - rewrite <- Hstart. by destruct action.
Qed.

(** The primary model and the secondary models together are the model
    list of the state, the primary first. *)
Lemma primary_and_secondary_partition (s : Store) :
  models (state s) = option_list (getPrimaryModel s) ++ getSecondaryModels s /\
  (getPrimaryModel s = None <-> models (state s) = []) /\
  (getPrimaryModel s = None -> getSecondaryModels s = []).
Proof.
  unfold getPrimaryModel, getSecondaryModels.
  destruct (models (state s)) as [|primary rest]; simpl.
  - by split_and!.
  - split_and!; [by rewrite drop_0|split; discriminate|discriminate].
Qed.

End QuotaStoreFacts.

(** ** The polling cycle and the status bar *)

Module ExtensionFacts.
Import Js Types Spec JsFacts.
Import InsightsEngineSpec InsightsEngineFacts QuotaFetcherSpec QuotaFetcherFacts.

(** [fetch] returns, having sent one status request at most. *)
Lemma fetch_returns env now (s : QuotaFetcher.Fetcher) :
  exists r s',
    QuotaFetcher.fetch env now s = (QuotaFetcher.Returned r, s') /\
    (status_requests s' <= status_requests s + 1)%nat.
Proof.
  rewrite fetch_cases. cbv zeta.
  destruct (QuotaFetcher.connection s) as [conn|].
  - destruct (fetch_try env now s) as (r & s' & -> & Hcount & _). eauto.
  - unfold QuotaFetcher.connect.
    destruct (connectLoop_run env 3 1 3 s) as (connected & s1 & -> & Hr & _).
    destruct connected.
    + destruct (fetch_try env now s1) as (r & s' & -> & Hcount & _).
      exists r, s'. split; [done|lia].
    + exists None, s1. split; [done|lia].
Qed.

Lemma poll_notifications_two env now config (a : Extension.App)
    (final : QuotaState) :
  QuotaStore.notified (Extension.store (Extension.poll env now config a))
  = QuotaStore.notified (Extension.store a)
    ++ [QuotaStore.reduce now (QuotaStore.state (Extension.store a)) LOADING;
        final] ->
  poll_notifications env now config a
  = [QuotaStore.reduce now (QuotaStore.state (Extension.store a)) LOADING; final].
Proof.
  intros H. unfold poll_notifications. rewrite H. by rewrite drop_app_length.
Qed.

(** X26. A poll always settles: whatever the network answers, when it
    ends the store is not loading; the subscribers have been handed
    exactly two states, first the loading state (loading, no error, the
    data as it was) and then the final one; the session start and the
    polling timer are untouched, and at most one status request has been
    sent. *)
Theorem poll_always_settles (env : QuotaFetcher.Env) (now : Z)
    (config : QuotaConfig) (a : Extension.App) :
  let a' := Extension.poll env now config a in
  let before := QuotaStore.state (Extension.store a) in
  let after := QuotaStore.state (Extension.store a') in
  isLoading after = false /\
  (exists loading,
      poll_notifications env now config a = [loading; after] /\
      isLoading loading = true /\ error loading = None /\
      Types.models loading = Types.models before) /\
  sessionStart after = sessionStart before /\
  Extension.pollingInterval a' = Extension.pollingInterval a /\
  (status_requests (Extension.fetcher a')
   <= status_requests (Extension.fetcher a) + 1)%nat.
Proof.
  intros a' before after.
  destruct (fetch_returns env now (Extension.fetcher a))
    as (r & f & Hfetch & Hcount).
  assert (Hcases :
    exists final,
      isLoading final = false /\ sessionStart final = sessionStart before /\
      QuotaStore.state (Extension.store a') = final /\
      QuotaStore.notified (Extension.store a')
      = QuotaStore.notified (Extension.store a)
        ++ [QuotaStore.reduce now before LOADING; final] /\
      Extension.pollingInterval a' = Extension.pollingInterval a /\
      Extension.fetcher a' = f).
  { unfold a', Extension.poll. rewrite Hfetch. destruct r as [rawData|].
    - destruct (InsightsEngine.analyze _ _ _ _) as [[ms h] eng].
      eexists. split_and!; [| |reflexivity| |done..]; [done|done|].
      cbn [Extension.store QuotaStore.dispatch QuotaStore.notified
           QuotaStore.state]. by rewrite <- app_assoc.
    - eexists. split_and!; [| |reflexivity| |done..]; [done|done|].
      cbn [Extension.store QuotaStore.dispatch QuotaStore.notified
           QuotaStore.state]. by rewrite <- app_assoc. }
  destruct Hcases as (final & Hload & Hstart & Hstate & Hnote & Htimer & Hf).
  unfold after. rewrite Hstate. split_and!; [done| |done..|by rewrite Hf].
  exists (QuotaStore.reduce now before LOADING). split_and!; [|done..].
  rewrite <- Hstate in Hnote. rewrite <- Hstate.
  by apply poll_notifications_two.
Qed.

(** X27. A poll that cannot fetch keeps the last data. When the fetch
    returns null, the store ends with the error "Could not connect to
    Antigravity", not loading, and with the models, credit pools, health
    and last-update time it had before the poll; the insights engine is
    untouched, so no history entry is recorded for the failed poll. *)
Theorem failed_poll_keeps_last_data (env : QuotaFetcher.Env) (now : Z)
    (config : QuotaConfig) (a : Extension.App) :
  (QuotaFetcher.fetch env now (Extension.fetcher a)).1
    = QuotaFetcher.Returned None ->
  let a' := Extension.poll env now config a in
  let before := QuotaStore.state (Extension.store a) in
  let after := QuotaStore.state (Extension.store a') in
  error after = Some "Could not connect to Antigravity" /\
  isLoading after = false /\
  Types.models after = Types.models before /\
  promptCredits after = promptCredits before /\
  flowCredits after = flowCredits before /\
  health after = health before /\
  lastUpdate after = lastUpdate before /\
  Extension.insights a' = Extension.insights a.
Proof.
  intros Hfetch a' before after. unfold after, a', Extension.poll.
  destruct (QuotaFetcher.fetch env now (Extension.fetcher a)) as [o f].
  simpl in Hfetch. subst o. by split_and!.
Qed.

Lemma failed_poll_keeps_last_data_witness :
  let env := {| QuotaFetcher.platformProcessInfo :=
                  fun _ => QuotaFetcher.Returned None;
                QuotaFetcher.isPortOpen := fun _ _ => false;
                QuotaFetcher.tcpSettledAt := fun _ _ => 0;
                QuotaFetcher.testApiEndpoint := fun _ _ _ => false;
                QuotaFetcher.userStatusReply :=
                  fun _ => QuotaFetcher.RequestTimeout;
                QuotaFetcher.JSON_parse := fun _ => None;
                QuotaFetcher.Date_getTime := fun _ => None |} in
  let config := {| warningThreshold := 25; refreshInterval := 60;
                   pinnedModels := []; displayStyle := percentage |} in
  let a := {| Extension.store := QuotaStore.new 0;
              Extension.fetcher := QuotaFetcher.new;
              Extension.insights := InsightsEngine.new ∅ 0;
              Extension.pollingInterval := None |} in
  let a' := Extension.poll env 1 config a in
  let before := QuotaStore.state (Extension.store a) in
  let after := QuotaStore.state (Extension.store a') in
  error after = Some "Could not connect to Antigravity" /\
  isLoading after = false /\
  Types.models after = Types.models before /\
  promptCredits after = promptCredits before /\
  flowCredits after = flowCredits before /\
  health after = health before /\
  lastUpdate after = lastUpdate before /\
  Extension.insights a' = Extension.insights a.
Proof.
  intros env config a.
  apply (failed_poll_keeps_last_data env 1 config a). reflexivity.
Defined.

Lemma analyze_sorted now e ms config :
  StronglySorted precedes (InsightsEngine.analyze now e ms config).1.1.
Proof.
  rewrite analyze_models.
  apply (Array_sort_sorted InsightsEngine.byPriority precedes);
    [apply byPriority_before | apply byPriority_after | apply precedes_trans].
Qed.

(** X28. A poll that fetches a snapshot publishes its analysis. The store
    ends with the models of the analysis of the fetched models, in the
    order the analysis gave them (pinned, then active, then lowest
    percentage), so that the primary model may stand before every
    secondary one; with the health of the analysis and the credit pools of
    the snapshot; with no error, not loading, and the time of the poll as
    last update. The engine is the one the analysis left. *)
Theorem successful_poll_publishes_analysis (env : QuotaFetcher.Env) (now : Z)
    (config : QuotaConfig) (a : Extension.App)
    (rawData : QuotaFetcher.RawQuotaResponse) :
  (QuotaFetcher.fetch env now (Extension.fetcher a)).1
    = QuotaFetcher.Returned (Some rawData) ->
  let a' := Extension.poll env now config a in
  let after := QuotaStore.state (Extension.store a') in
  let analysis :=
    InsightsEngine.analyze now (Extension.insights a)
      (QuotaFetcher.models rawData) config in
  Types.models after = analysis.1.1 /\
  health after = analysis.1.2 /\
  Extension.insights a' = analysis.2 /\
  promptCredits after = QuotaFetcher.promptCredits rawData /\
  flowCredits after = QuotaFetcher.flowCredits rawData /\
  error after = None /\ isLoading after = false /\ lastUpdate after = now /\
  (forall primary other,
      QuotaStore.getPrimaryModel (Extension.store a') = Some primary ->
      other ∈ QuotaStore.getSecondaryModels (Extension.store a') ->
      precedes primary other).
Proof.
  intros Hfetch a' after analysis.
  assert (Hstate :
    Types.models after = analysis.1.1 /\ health after = analysis.1.2 /\
    Extension.insights a' = analysis.2 /\
    promptCredits after = QuotaFetcher.promptCredits rawData /\
    flowCredits after = QuotaFetcher.flowCredits rawData /\
    error after = None /\ isLoading after = false /\ lastUpdate after = now).
  { unfold after, a', analysis, Extension.poll.
    destruct (QuotaFetcher.fetch env now (Extension.fetcher a)) as [o f].
    simpl in Hfetch. subst o.
    by destruct (InsightsEngine.analyze _ _ _ _) as [[ms h] eng]. }
  destruct Hstate as (Hm & Hrest). split; [done|].
  repeat (split; [tauto|]).
  intros primary other Hprimary Hother.
  pose proof (analyze_sorted now (Extension.insights a)
                (QuotaFetcher.models rawData) config) as Hsorted.
  fold analysis in Hsorted. rewrite <- Hm in Hsorted. fold after in Hsorted.
  unfold QuotaStore.getPrimaryModel, QuotaStore.getSecondaryModels in *.
  fold a' in Hprimary, Hother. fold after in Hprimary, Hother.
  destruct (Types.models after) as [|top rest]; [discriminate|].
  injection Hprimary as ->. simpl in Hother. rewrite drop_0 in Hother.
  apply StronglySorted_inv in Hsorted as [_ Hall].
  rewrite Forall_forall in Hall. by apply Hall.
Qed.

Lemma successful_poll_publishes_analysis_witness :
  let status :=
    {| QuotaFetcher.rawName := Some "Ada"; QuotaFetcher.rawEmail := None;
       QuotaFetcher.planStatus := None;
       QuotaFetcher.cascadeModelConfigData :=
         Some {| QuotaFetcher.clientModelConfigs :=
                   Some (QuotaFetcher.Iterable
                     [ Some {| QuotaFetcher.rawLabel := Some "Claude";
                               QuotaFetcher.modelOrAlias := None;
                               QuotaFetcher.quotaInfo :=
                                 Some {| QuotaFetcher.remainingFraction :=
                                           Some (2 # 5)%Q;
                                         QuotaFetcher.rawResetTime := None |} |} ]) |};
       QuotaFetcher.userTier := None |} in
  let env := {| QuotaFetcher.platformProcessInfo := fun _ =>
                  QuotaFetcher.Returned
                    (Some {| QuotaFetcher.pid := 7;
                             QuotaFetcher.extensionPort := 0;
                             QuotaFetcher.csrfToken := "abc123" |});
                QuotaFetcher.isPortOpen := fun _ q => q =? 8095;
                QuotaFetcher.tcpSettledAt := fun _ _ => 0;
                QuotaFetcher.testApiEndpoint := fun _ _ _ => true;
                QuotaFetcher.userStatusReply :=
                  fun _ => QuotaFetcher.Response 200 "{}";
                QuotaFetcher.JSON_parse := fun _ =>
                  Some (Some (QuotaFetcher.Object (Some status) status));
                QuotaFetcher.Date_getTime := fun _ => None |} in
  let config := {| warningThreshold := 25; refreshInterval := 60;
                   pinnedModels := []; displayStyle := percentage |} in
  let a := {| Extension.store := QuotaStore.new 0;
              Extension.fetcher := QuotaFetcher.new;
              Extension.insights := InsightsEngine.new ∅ 0;
              Extension.pollingInterval := None |} in
  exists rawData,
    (QuotaFetcher.fetch env 1 (Extension.fetcher a)).1
      = QuotaFetcher.Returned (Some rawData) /\
    let a' := Extension.poll env 1 config a in
    let after := QuotaStore.state (Extension.store a') in
    let analysis :=
      InsightsEngine.analyze 1 (Extension.insights a)
        (QuotaFetcher.models rawData) config in
    Types.models after = analysis.1.1 /\
    health after = analysis.1.2 /\
    Extension.insights a' = analysis.2 /\
    promptCredits after = QuotaFetcher.promptCredits rawData /\
    flowCredits after = QuotaFetcher.flowCredits rawData /\
    error after = None /\ isLoading after = false /\ lastUpdate after = 1 /\
    (forall primary other,
        QuotaStore.getPrimaryModel (Extension.store a') = Some primary ->
        other ∈ QuotaStore.getSecondaryModels (Extension.store a') ->
        precedes primary other).
Proof.
  intros status env config a.
  eexists. split; [by vm_compute|].
  apply (successful_poll_publishes_analysis env 1 config a). by vm_compute.
Defined.

(** *** The status bar *)

Lemma update_offline (st : QuotaState) (item : StatusBarView.Item)
    (message : string) :
  error st = Some message -> message <> "" ->
  StatusBarView.update st item =
  {| StatusBarView.text := "$(error) Offline";
     StatusBarView.backgroundColor := Some StatusBarView.errorBackground;
     StatusBarView.tooltip :=
       StatusBarView.Plain ("Connection Error: " +:+ message);
     StatusBarView.visible := true |}.
Proof.
  intros Herr Hne. unfold StatusBarView.update.
  rewrite andb_false_r, Herr. by destruct message.
Qed.

(** X29. After a poll that cannot fetch, the status bar reads
    "$(error) Offline" on the error background, with the tooltip
    "Connection Error: Could not connect to Antigravity", and is shown,
    whatever it displayed before and although the store still holds the
    last models. *)
Theorem status_bar_offline_after_failed_poll (env : QuotaFetcher.Env)
    (now : Z) (config : QuotaConfig) (a : Extension.App)
    (item : StatusBarView.Item) :
  (QuotaFetcher.fetch env now (Extension.fetcher a)).1
    = QuotaFetcher.Returned None ->
  StatusBarView.render (poll_notifications env now config a) item =
  {| StatusBarView.text := "$(error) Offline";
     StatusBarView.backgroundColor := Some StatusBarView.errorBackground;
     StatusBarView.tooltip :=
       StatusBarView.Plain
         "Connection Error: Could not connect to Antigravity";
     StatusBarView.visible := true |}.
Proof.
  intros Hfetch.
  rewrite (poll_notifications_two env now config a
             (QuotaStore.state
                (Extension.store (Extension.poll env now config a)))).
  2:{ unfold Extension.poll.
      destruct (QuotaFetcher.fetch env now (Extension.fetcher a)) as [o f].
      simpl in Hfetch. subst o.
      cbn [Extension.store QuotaStore.dispatch QuotaStore.notified
           QuotaStore.state]. by rewrite <- app_assoc. }
  unfold StatusBarView.render. cbn [foldl].
  apply (update_offline _ _ "Could not connect to Antigravity"); [|done].
  unfold Extension.poll.
  destruct (QuotaFetcher.fetch env now (Extension.fetcher a)) as [o f].
  simpl in Hfetch. by subst o.
Qed.

Lemma status_bar_offline_after_failed_poll_witness :
  let env := {| QuotaFetcher.platformProcessInfo :=
                  fun _ => QuotaFetcher.Returned None;
                QuotaFetcher.isPortOpen := fun _ _ => false;
                QuotaFetcher.tcpSettledAt := fun _ _ => 0;
                QuotaFetcher.testApiEndpoint := fun _ _ _ => false;
                QuotaFetcher.userStatusReply :=
                  fun _ => QuotaFetcher.RequestTimeout;
                QuotaFetcher.JSON_parse := fun _ => None;
                QuotaFetcher.Date_getTime := fun _ => None |} in
  let config := {| warningThreshold := 25; refreshInterval := 60;
                   pinnedModels := []; displayStyle := percentage |} in
  let a := {| Extension.store := QuotaStore.new 0;
              Extension.fetcher := QuotaFetcher.new;
              Extension.insights := InsightsEngine.new ∅ 0;
              Extension.pollingInterval := None |} in
  StatusBarView.render (poll_notifications env 1 config a)
                       StatusBarView.created =
  {| StatusBarView.text := "$(error) Offline";
     StatusBarView.backgroundColor := Some StatusBarView.errorBackground;
     StatusBarView.tooltip :=
       StatusBarView.Plain
         "Connection Error: Could not connect to Antigravity";
     StatusBarView.visible := true |}.
Proof.
  intros env config a.
  apply (status_bar_offline_after_failed_poll env 1 config a
           StatusBarView.created).
  reflexivity.
Defined.

(** X30. On a state whose error is null or the empty string the status
    bar shows the first model of the state: its remaining percentage
    behind "$(pulse)" when it is active and
    "$(check)" when not, on the error background below 25 %, the warning
    background below 50 % and the default one from 50 % on. With no
    models the bar is hidden and its text and colour stay as they
    were. *)
Theorem status_bar_shows_primary_model (st : QuotaState)
    (item : StatusBarView.Item) :
  truthy (error st) = false ->
  let item' := StatusBarView.update st item in
  match Types.models st with
  | [] =>
      StatusBarView.visible item' = false /\
      StatusBarView.text item' = StatusBarView.text item /\
      StatusBarView.backgroundColor item' = StatusBarView.backgroundColor item
  | primary :: _ =>
      StatusBarView.visible item' = true /\
      StatusBarView.text item' =
        (if isActive (insights primary) then "$(pulse)" else "$(check)")
        +:+ " " +:+ show (remainingPercent primary) +:+ "%" /\
      (StatusBarView.backgroundColor item' = Some StatusBarView.errorBackground
       <-> remainingPercent primary < 25) /\
      (StatusBarView.backgroundColor item' = Some StatusBarView.warningBackground
       <-> 25 <= remainingPercent primary < 50) /\
      (StatusBarView.backgroundColor item' = None
       <-> 50 <= remainingPercent primary)
  end.
Proof.
  intros Herr item'. unfold item', StatusBarView.update.
  rewrite andb_false_r, Herr.
  destruct (Types.models st) as [|primary rest]; [done|].
  cbn [StatusBarView.visible StatusBarView.text StatusBarView.backgroundColor].
  split_and!; [done..| | |];
    destruct (Z.ltb_spec (remainingPercent primary) 25);
    destruct (Z.ltb_spec (remainingPercent primary) 50);
    split; intros; try done; try lia.
Qed.

Lemma status_bar_shows_primary_model_witness :
  let model :=
    {| quota := {| modelId := "m"; label := "Claude"; remainingPercent := 40;
                   isExhausted := false; resetTime := None;
                   timeUntilReset := Some "1h 30m" |};
       insights := {| burnRate := 0; burnRateLabel := "Minimal";
                      predictedExhaustion := None;
                      predictedExhaustionLabel := Some "Safe for now";
                      sessionUsage := 0; isActive := true;
                      isPinned := false; historyData := [40] |} |} in
  let st := {| Types.models := [model]; promptCredits := None;
               flowCredits := None;
               health := {| score := 40; level := low; health_label := "Low" |};
               sessionStart := 0; lastUpdate := 1; isLoading := false;
               error := None |} in
  let item' := StatusBarView.update st StatusBarView.created in
  StatusBarView.text item' = "$(pulse) 40%" /\
  StatusBarView.backgroundColor item' = Some StatusBarView.warningBackground /\
  match Types.models st with
  | [] =>
      StatusBarView.visible item' = false /\
      StatusBarView.text item' = StatusBarView.text StatusBarView.created /\
      StatusBarView.backgroundColor item'
        = StatusBarView.backgroundColor StatusBarView.created
  | primary :: _ =>
      StatusBarView.visible item' = true /\
      StatusBarView.text item' =
        (if isActive (insights primary) then "$(pulse)" else "$(check)")
        +:+ " " +:+ show (remainingPercent primary) +:+ "%" /\
      (StatusBarView.backgroundColor item' = Some StatusBarView.errorBackground
       <-> remainingPercent primary < 25) /\
      (StatusBarView.backgroundColor item' = Some StatusBarView.warningBackground
       <-> 25 <= remainingPercent primary < 50) /\
      (StatusBarView.backgroundColor item' = None
       <-> 50 <= remainingPercent primary)
  end.
Proof.
  intros model st.
  split; [reflexivity|]. split; [reflexivity|].
  apply (status_bar_shows_primary_model st StatusBarView.created). reflexivity.
Defined.

(** The polling timer never fires more often than every 30 seconds. *)
Lemma polling_interval_floor (env : QuotaFetcher.Env) (now : Z)
    (config : QuotaConfig) (a : Extension.App) :
  exists period,
    Extension.pollingInterval (Extension.startPolling env now config a)
      = Some period /\
    30000 <= period /\
    (30 <= refreshInterval config -> period = refreshInterval config * 1000).
Proof.
  eexists. split; [reflexivity|]. unfold Extension.intervalMs. lia.
Qed.

End ExtensionFacts.
